(** * cloudigrade: events, runs and the EC2 definition catalog

    A shallow embedding of [cloudigrade/api/models.py] and of
    [cloudigrade/api/clouds/aws/tasks/maintenance.py], together with the
    replay state machine that derives Runs from the event log.

    Part I holds the definitions, Part II the properties proved of them. *)

From Stdlib Require Import ZArith Lia Ascii Floats.PrimFloat Uint63.
From stdpp Require Import gmap strings list fin_maps.

Local Open Scope Z_scope.

(** ** Part I. Definitions *)

(** Python exceptions that cross the functions modelled here.  A
    constructor stands for the class and its subclasses, so [ValueError]
    covers [json.JSONDecodeError]. *)
Inductive Exn : Type :=
| ValueError | KeyError | TypeError | UnboundLocalError
| IntegrityError | OtherError (tag : string).

#[global] Instance Exn_eq_dec : EqDecision Exn.
Proof. solve_decision. Defined.

(** A [for] loop whose body may raise: the loop stops at the first
    exception and the state reached so far is kept with it. *)
Fixpoint for_each {S A : Type} (body : S -> A -> S * option Exn)
    (st : S) (l : list A) : S * option Exn :=
  match l with
  | [] => (st, None)
  | x :: l' =>
      match body st x with
      | (st', None) => for_each body st' l'
      | (st', Some e) => (st', Some e)
      end
  end.

(** *** The Reconciliation Engine *)

Module Engine.

(** Modelled from the spec: the event record the Engine consumes.  The
    Engine itself ([api.util.recalculate_runs] and the functions it calls)
    is not among the source files; section 3 of the design gives an Event
    an owning instance, one of three event types, a timestamp and an
    optional hardware-profile identifier. *)
Inductive EventType : Type := power_on | power_off | attribute_change.

Record Event : Type := {
  instance_id : nat;
  event_type : EventType;
  occurred_at : Z;
  attributes : option string
}.

(** Modelled from the spec: the reference data of the Catalog Lookup,
    a profile identifier mapped to [(memory, vcpu)]. *)
Record HardwareProfile : Type := {
  hp_memory : float;
  hp_vcpu : Z
}.

(** Modelled from the spec: a Run as the Engine emits it.  The nullable
    columns are those of [Run] in models.py ([end_time], [instance_type],
    [memory], [vcpu] all have [null=True]). *)
Record Run : Type := {
  run_instance : nat;
  start_time : Z;
  end_time : option Z;
  instance_type : option string;
  memory : option float;
  vcpu : option Z
}.

(** Modelled from the spec: the three stores the Engine works between. *)
Record System : Type := {
  event_store : list Event;
  catalog : gmap string HardwareProfile;
  run_store : gmap nat (list Run)
}.

(** Modelled from the spec: [lookup(profileId) -> {memory, vcpu} | not-found]. *)
Definition lookup_profile (cat : gmap string HardwareProfile) (p : string)
  : option HardwareProfile := cat !! p.

(** Modelled from the spec: events ordered by [occurred_at], ties broken by
    creation order.  Inserting in front of the first event that is not
    strictly earlier keeps the order of the log among equal timestamps. *)
Fixpoint insert_event (e : Event) (l : list Event) : list Event :=
  match l with
  | [] => [e]
  | x :: l' =>
      if occurred_at x <? occurred_at e then x :: insert_event e l'
      else e :: x :: l'
  end.

Fixpoint sort_events (l : list Event) : list Event :=
  match l with
  | [] => []
  | e :: l' => insert_event e (sort_events l')
  end.

(** Modelled from the spec: [GetEventHistory(instanceId)]. *)
Definition GetEventHistory (i : nat) (log : list Event) : list Event :=
  sort_events (filter (fun e => instance_id e = i) log).

(** Modelled from the spec: the state of the replay state machine. *)
Record ReplayState : Type := {
  current_profile : option string;
  current_start : option Z;
  pending_runs : list Run
}.

Definition initial_state : ReplayState :=
  {| current_profile := None; current_start := None; pending_runs := [] |}.

(** Modelled from the spec: a Run is resolved against the Catalog Lookup
    when it is emitted; [not-found] leaves memory and vcpu null. *)
Definition emit_run (cat : gmap string HardwareProfile) (i : nat)
    (start : Z) (stop : option Z) (profile : option string) : Run :=
  let hp := profile ≫= lookup_profile cat in
  {| run_instance := i;
     start_time := start;
     end_time := stop;
     instance_type := profile;
     memory := hp_memory <$> hp;
     vcpu := hp_vcpu <$> hp |}.

Definition open_run (st : ReplayState) (e : Event) : ReplayState :=
  {| current_profile := attributes e;
     current_start := Some (occurred_at e);
     pending_runs := pending_runs st |}.

Definition close_run (cat : gmap string HardwareProfile) (i : nat)
    (st : ReplayState) (start stop : Z) : ReplayState :=
  {| current_profile := None;
     current_start := None;
     pending_runs :=
       pending_runs st ++ [emit_run cat i start (Some stop) (current_profile st)] |}.

Section Replay.

(** The transition table opens a run on an [attribute_change] met in the
    closed state when no run was opened earlier in the history.  It is
    silent on an [attribute_change] met in the closed state after an
    earlier run: [reopen_on_change] chooses between the two readings, no-op
    ([false]) and open ([true]). *)
Variable reopen_on_change : bool.
Variable cat : gmap string HardwareProfile.
Variable i : nat.

(** Modelled from the spec: one row of the transition table per branch. *)
Definition replay_step (st : ReplayState) (e : Event) : ReplayState :=
  match current_start st with
  | None =>
      match event_type e with
      | power_on => open_run st e
      | power_off => st
      | attribute_change =>
          match pending_runs st with
          | [] => open_run st e
          | _ :: _ => if reopen_on_change then open_run st e else st
          end
      end
  | Some start =>
      match event_type e with
      | power_on => st
      | power_off => close_run cat i st start (occurred_at e)
      | attribute_change =>
          if bool_decide (attributes e = current_profile st) then st
          else open_run (close_run cat i st start (occurred_at e)) e
      end
  end.

(** Modelled from the spec: end of history, an open run is emitted with
    [end_time = null]. *)
Definition finish (st : ReplayState) : list Run :=
  match current_start st with
  | None => pending_runs st
  | Some start =>
      pending_runs st ++ [emit_run cat i start None (current_profile st)]
  end.

Definition replay (history : list Event) : list Run :=
  finish (foldl replay_step initial_state history).

End Replay.

(** Modelled from the spec: [ReplaceRuns(instanceId, newRunSet)], the prior
    Run set of the instance is dropped and the new one put in its place. *)
Definition ReplaceRuns (i : nat) (rs : list Run) (s : System) : System :=
  {| event_store := event_store s;
     catalog := catalog s;
     run_store := <[i := rs]> (run_store s) |}.

(** Modelled from the spec: [Reconcile(instanceId)], a full-history replay
    followed by the replacement of the instance's Run set. *)
Definition Reconcile (reopen : bool) (i : nat) (s : System) : System :=
  ReplaceRuns i
    (replay reopen (catalog s) i (GetEventHistory i (event_store s))) s.

(** Modelled from the spec: [recordEvent], an append to the event log. *)
Definition recordEvent (e : Event) (s : System) : System :=
  {| event_store := event_store s ++ [e];
     catalog := catalog s;
     run_store := run_store s |}.

(** Modelled from the spec: the catalog is refreshed independently. *)
Definition refresh_catalog (cat : gmap string HardwareProfile) (s : System)
  : System :=
  {| event_store := event_store s; catalog := cat; run_store := run_store s |}.

(** The Runs currently stored for an instance. *)
Definition runs_of (i : nat) (s : System) : list Run :=
  default [] (run_store s !! i).

(** Systems the operations can produce from an empty event log and an
    empty Run Store. *)
Inductive reachable (reopen : bool) : System -> Prop :=
| reach_init cat :
    reachable reopen {| event_store := []; catalog := cat; run_store := ∅ |}
| reach_record e s :
    reachable reopen s -> reachable reopen (recordEvent e s)
| reach_refresh cat s :
    reachable reopen s -> reachable reopen (refresh_catalog cat s)
| reach_reconcile i s :
    reachable reopen s -> reachable reopen (Reconcile reopen i s).

(** [t] lies before the end of an interval; a null end is +infinity. *)
Definition before_end (t : Z) (stop : option Z) : bool :=
  match stop with
  | None => true
  | Some e => t <? e
  end.

(** Two half-open intervals [[start, end)] share a point in time. *)
Definition overlaps (r1 r2 : Run) : bool :=
  before_end (start_time r1) (end_time r2)
  && before_end (start_time r2) (end_time r1).

(** The Run invariant of the data model: ordered by [start_time],
    pairwise non-overlapping, and a null [end_time] only on the last Run. *)
Definition runs_well_formed (rs : list Run) : Prop :=
  (forall j k r1 r2, (j < k)%nat -> rs !! j = Some r1 -> rs !! k = Some r2 ->
     start_time r1 <= start_time r2)
  /\ (forall j k r1 r2, j <> k -> rs !! j = Some r1 -> rs !! k = Some r2 ->
     overlaps r1 r2 = false)
  /\ (forall j r, rs !! j = Some r -> end_time r = None -> S j = length rs).

(** What of a Run does not come from the Catalog Lookup. *)
Definition interval_of (r : Run) : nat * Z * option Z * option string :=
  (run_instance r, start_time r, end_time r, instance_type r).

(** A history in chronological order, no event earlier than [lo]. *)
Fixpoint sorted_from (lo : Z) (l : list Event) : Prop :=
  match l with
  | [] => True
  | e :: l' => lo <= occurred_at e /\ sorted_from (occurred_at e) l'
  end.

(** Closed Runs that follow one another between [lo] and [hi]: each ends
    no earlier than it starts and no later than the next one starts. *)
Fixpoint chain (lo : Z) (rs : list Run) (hi : Z) : Prop :=
  match rs with
  | [] => lo <= hi
  | r :: rs' =>
      exists e, end_time r = Some e /\ lo <= start_time r
                /\ start_time r <= e /\ chain e rs' hi
  end.

(** The same, with the last Run free to be open. *)
Fixpoint chain_open (lo : Z) (rs : list Run) : Prop :=
  match rs with
  | [] => True
  | r :: rs' =>
      match rs' with
      | [] =>
          lo <= start_time r
          /\ (forall e, end_time r = Some e -> start_time r <= e)
      | _ :: _ =>
          exists e, end_time r = Some e /\ lo <= start_time r
                    /\ start_time r <= e /\ chain_open e rs'
      end
  end.

(** The invariant of the replay once the events up to time [t] have been
    consumed. *)
Definition replay_inv (lo : Z) (st : ReplayState) (t : Z) : Prop :=
  match current_start st with
  | None => chain lo (pending_runs st) t
  | Some start => chain lo (pending_runs st) start /\ start <= t
  end.

(** A Run carries what the catalog holds for its instance type. *)
Definition enriched (cat : gmap string HardwareProfile) (r : Run) : Prop :=
  memory r = hp_memory <$> (instance_type r ≫= lookup_profile cat)
  /\ vcpu r = hp_vcpu <$> (instance_type r ≫= lookup_profile cat).

(** Sample data: a catalog that knows one instance type, and a log whose
    events arrive out of order and name a type the catalog lacks. *)
Definition sample_catalog : gmap string HardwareProfile :=
  {[ "m5.large" := {| hp_memory := 8%float; hp_vcpu := 2 |} ]}.

Definition sample_event (i : nat) (ty : EventType) (t : Z)
    (profile : option string) : Event :=
  {| instance_id := i; event_type := ty; occurred_at := t; attributes := profile |}.

Definition sample_log : list Event :=
  [ sample_event 1 power_off 30 None;
    sample_event 1 power_on 10 (Some "m5.large");
    sample_event 2 power_on 15 (Some "m5.large");
    sample_event 1 attribute_change 20 (Some "x9.unknown");
    sample_event 1 power_on 40 (Some "x9.unknown") ].

Definition sample_system : System :=
  Reconcile false 1
    (foldl (fun s e => recordEvent e s)
       {| event_store := []; catalog := sample_catalog; run_store := ∅ |}
       sample_log).

Definition sample_runs : list Run :=
  [ {| run_instance := 1; start_time := 10; end_time := Some 20;
       instance_type := Some "m5.large";
       memory := Some 8%float; vcpu := Some 2 |};
    {| run_instance := 1; start_time := 20; end_time := Some 30;
       instance_type := Some "x9.unknown"; memory := None; vcpu := None |};
    {| run_instance := 1; start_time := 40; end_time := None;
       instance_type := Some "x9.unknown"; memory := None; vcpu := None |} ].

(** Two replay states that differ in catalog data only. *)
Definition same_intervals (st st' : ReplayState) : Prop :=
  current_profile st = current_profile st'
  /\ current_start st = current_start st'
  /\ interval_of <$> pending_runs st = interval_of <$> pending_runs st'.

End Engine.

(** *** The data model of [api/models.py] *)

Module Models.

Record CloudAccount : Type := {
  ca_id : nat;
  ca_user : nat;
  ca_name : string;
  is_enabled : bool;
  enabled_at : Z;
  platform_authentication_id : Z;
  platform_application_id : Z;
  platform_endpoint_id : Z;
  platform_source_id : Z
}.

Record MachineImage : Type := {
  mi_id : nat;
  inspection_json : option string;
  is_encrypted : bool;
  status : string;
  rhel_detected_by_tag : bool;
  openshift_detected : bool;
  mi_name : option string;
  architecture : option string
}.

(** [machine_image] is a nullable foreign key. *)
Record Instance : Type := {
  inst_id : nat;
  cloud_account : nat;
  machine_image : option nat
}.

(** Modelled from the spec: the cloud-specific row behind an event's
    [content_object] (for AWS, [api.clouds.aws.models.AwsInstanceEvent],
    which is not among the source files).  It is the row that carries the
    event's [attributes], the hardware-profile identifier; [ce_class] names
    the model class the row belongs to. *)
Record CloudEvent : Type := {
  ce_class : string;
  ce_id : nat;
  ce_attributes : option string
}.

(** [event_type] is a [CharField] with [choices=TYPE]; the generic relation
    of [BaseGenericModel] is kept by value in [content_object]. *)
Record InstanceEvent : Type := {
  ev_id : nat;
  ev_instance : nat;
  event_type : string;
  occurred_at : Z;
  content_object : CloudEvent
}.

Record Run : Type := {
  run_id : nat;
  start_time : Z;
  end_time : option Z;
  machineimage : option nat;
  run_instance : nat;
  instance_type : option string;
  memory : option float;
  vcpu : option Z
}.

Record MachineImageInspectionStart : Type := {
  mis_id : nat;
  mis_machineimage : nat
}.

#[global] Instance CloudEvent_eq_dec : EqDecision CloudEvent.
Proof. solve_decision. Defined.

#[global] Instance InstanceEvent_eq_dec : EqDecision InstanceEvent.
Proof. solve_decision. Defined.

(** [InstanceEvent.TYPE = model_utils.Choices(...)]. *)
Definition TYPE : list string := ["power_on"; "power_off"; "attribute_change"].
Definition TYPE_power_on : string := "power_on".
Definition TYPE_power_off : string := "power_off".
Definition TYPE_attribute_change : string := "attribute_change".

(** The validation Django derives from [choices=TYPE, null=False,
    blank=False]: a value passes when it is one of the choices. *)
Definition valid_event_type (s : string) : bool := bool_decide (s ∈ TYPE).

(** The hardware-profile identifier an event carries. *)
Definition attributes (e : InstanceEvent) : option string :=
  ce_attributes (content_object e).

(** The tables, in insertion order, and the sequences behind the
    auto-increment keys of the two tables the code inserts into. *)
Record Db : Type := {
  cloud_accounts : list CloudAccount;
  machine_images : list MachineImage;
  instances : list Instance;
  instance_events : list InstanceEvent;
  runs : list Run;
  inspection_starts : list MachineImageInspectionStart;
  next_event_id : nat;
  next_content_id : nat
}.

(** What an operation does besides changing the tables. *)
Inductive Effect : Type :=
| SavedAccount (a : CloudAccount)
| CreatedEvent (e : InstanceEvent)
| RecalculatedRuns (e : InstanceEvent)
| CloudEnabled (account : nat)
| CloudDisabled (account : nat)
| Notified (user : nat) (application : Z) (availability message : string)
| NotifiedError (user : nat) (application : Z) (code : string)
| Logged (message : string).

(** [content_object_class.objects.create()]: a new cloud-specific row with
    every column at its default, so without attributes. *)
Definition create_cloud_event (cls : string) (db : Db) : CloudEvent * Db :=
  ({| ce_class := cls; ce_id := next_content_id db; ce_attributes := None |},
   {| cloud_accounts := cloud_accounts db;
      machine_images := machine_images db;
      instances := instances db;
      instance_events := instance_events db;
      runs := runs db;
      inspection_starts := inspection_starts db;
      next_event_id := next_event_id db;
      next_content_id := S (next_content_id db) |}).

(** [InstanceEvent.objects.create(...)]. *)
Definition create_event (ty : string) (t : Z) (inst : Instance)
    (content : CloudEvent) (db : Db) : InstanceEvent * Db :=
  let e := {| ev_id := next_event_id db;
              ev_instance := inst_id inst;
              event_type := ty;
              occurred_at := t;
              content_object := content |} in
  (e,
   {| cloud_accounts := cloud_accounts db;
      machine_images := machine_images db;
      instances := instances db;
      instance_events := instance_events db ++ [e];
      runs := runs db;
      inspection_starts := inspection_starts db;
      next_event_id := S (next_event_id db);
      next_content_id := next_content_id db |}).

(** The head of [order_by("-occurred_at")]; among equal timestamps the row
    inserted first. *)
Fixpoint latest (l : list InstanceEvent) : option InstanceEvent :=
  match l with
  | [] => None
  | e :: l' =>
      match latest l' with
      | None => Some e
      | Some e' => if occurred_at e' <=? occurred_at e then Some e else Some e'
      end
  end.

(** [InstanceEvent.objects.filter(instance=instance)
      .order_by("-occurred_at").first()]. *)
Definition last_event (inst : Instance) (db : Db) : option InstanceEvent :=
  latest (filter (fun e => ev_instance e = inst_id inst) (instance_events db)).

(** [self.instance_set.all()]. *)
Definition instance_set (a : CloudAccount) (db : Db) : list Instance :=
  filter (fun x => cloud_account x = ca_id a) (instances db).

(** [self.save()]: the row with the object's key is rewritten, or inserted
    when there is none. *)
Fixpoint save_row (a : CloudAccount) (l : list CloudAccount) : list CloudAccount :=
  match l with
  | [] => [a]
  | x :: l' => if bool_decide (ca_id x = ca_id a) then a :: l' else x :: save_row a l'
  end.

Definition save_account (a : CloudAccount) (db : Db) : Db :=
  {| cloud_accounts := save_row a (cloud_accounts db);
     machine_images := machine_images db;
     instances := instances db;
     instance_events := instance_events db;
     runs := runs db;
     inspection_starts := inspection_starts db;
     next_event_id := next_event_id db;
     next_content_id := next_content_id db |}.

Definition set_enabled (b : bool) (t : Z) (a : CloudAccount) : CloudAccount :=
  {| ca_id := ca_id a;
     ca_user := ca_user a;
     ca_name := ca_name a;
     is_enabled := b;
     enabled_at := t;
     platform_authentication_id := platform_authentication_id a;
     platform_application_id := platform_application_id a;
     platform_endpoint_id := platform_endpoint_id a;
     platform_source_id := platform_source_id a |}.

Definition find_image (m : nat) (db : Db) : option MachineImage :=
  find (fun x => bool_decide (mi_id x = m)) (machine_images db).

(** The rows Django collects through [on_delete=CASCADE] when the instances
    with keys [ids] are deleted: the instances, and the events and runs
    whose [instance] points at them. *)
Definition delete_instance_rows (ids : list nat) (db : Db) : Db :=
  {| cloud_accounts := cloud_accounts db;
     machine_images := machine_images db;
     instances := filter (fun x => inst_id x ∉ ids) (instances db);
     instance_events := filter (fun e => ev_instance e ∉ ids) (instance_events db);
     runs := filter (fun r => run_instance r ∉ ids) (runs db);
     inspection_starts := inspection_starts db;
     next_event_id := next_event_id db;
     next_content_id := next_content_id db |}.

(** [MachineImage.delete()]: the image goes with what cascades from it, the
    instances on [Instance.machine_image] (with their events and runs), the
    runs on [Run.machineimage] and the inspection starts.  At its one call
    site below no instance refers to the image any more. *)
Definition delete_machine_image (m : nat) (db : Db) : Db :=
  let ids := inst_id <$> filter (fun x => machine_image x = Some m) (instances db) in
  let db1 := delete_instance_rows ids db in
  {| cloud_accounts := cloud_accounts db1;
     machine_images := filter (fun x => mi_id x <> m) (machine_images db1);
     instances := instances db1;
     instance_events := instance_events db1;
     runs := filter (fun r => machineimage r <> Some m) (runs db1);
     inspection_starts :=
       filter (fun x => mis_machineimage x <> m) (inspection_starts db1);
     next_event_id := next_event_id db1;
     next_content_id := next_content_id db1 |}.

(** [Instance.objects.filter(machine_image=...).exclude(id=instance.id)
      .exists()]. *)
Definition image_used_elsewhere (instance : Instance) (m : nat) (db : Db) : bool :=
  bool_decide (Exists (fun x => machine_image x = Some m /\ inst_id x <> inst_id instance)
                 (instances db)).

(** [instance_post_delete_callback]: reading [instance.machine_image]
    fetches the image row and raises [DoesNotExist], caught and logged,
    when the row is gone. *)
Definition instance_post_delete_callback (instance : Instance) (db : Db)
  : Db * list Effect :=
  match machine_image instance with
  | None => (db, [])
  | Some m =>
      match find_image m db with
      | None =>
          (db, [Logged "Machine image associated with instance has already been deleted."])
      | Some _ =>
          if image_used_elsewhere instance m db then (db, [])
          else
            (delete_machine_image m db,
             [Logged "image is no longer used by any instances and will be deleted"])
      end
  end.

(** [Instance.delete()]: the cascade, then the [post_delete] signal. *)
Definition delete_instance (instance : Instance) (db : Db) : Db * list Effect :=
  instance_post_delete_callback instance
    (delete_instance_rows [inst_id instance] db).

(** The [post_delete] signals of a batch of deleted instances, in order. *)
Definition post_delete_all (l : list Instance) (st : Db * list Effect)
  : Db * list Effect :=
  foldl (fun st x =>
           let '(db', eff') := instance_post_delete_callback x st.1 in
           (db', st.2 ++ eff')) st l.

Section Operations.

(** The collaborators whose code lies outside the source files:
    [api.util.recalculate_runs], and the [enable] and [disable] of the
    cloud-specific account behind [content_object]. *)
Variable recalculate_runs : InstanceEvent -> Db -> Db.
Variable cloud_enable : CloudAccount -> Db -> Exn + Db.
Variable cloud_disable : CloudAccount -> Db -> Db.

(** The body of the loop of [_power_off_instances]. *)
Definition power_off_instance (power_off_time : Z)
    (st : Db * list Effect) (inst : Instance) : Db * list Effect :=
  let '(db, eff) := st in
  match last_event inst db with
  | Some last =>
      if bool_decide (event_type last <> TYPE_power_off) then
        let '(cloud_specific_event, db1) :=
          create_cloud_event (ce_class (content_object last)) db in
        let '(event, db2) :=
          create_event TYPE_power_off power_off_time inst cloud_specific_event db1 in
        (recalculate_runs event db2,
         eff ++ [CreatedEvent event; RecalculatedRuns event])
      else st
  | None => st
  end.

(** [CloudAccount._power_off_instances]. *)
Definition _power_off_instances (self : CloudAccount) (power_off_time : Z)
    (db : Db) : Db * list Effect :=
  foldl (power_off_instance power_off_time) (db, []) (instance_set self db).

(** [CloudAccount.disable]; [now] is what [get_now()] returns. *)
Definition disable (self : CloudAccount) (message : string)
    (power_off_instances : bool) (now : Z) (db : Db)
  : CloudAccount * Db * list Effect :=
  let '(self1, db1, eff1) :=
    if is_enabled self then
      let self1 := set_enabled false (enabled_at self) self in
      (self1, save_account self1 db, [SavedAccount self1])
    else (self, db, []) in
  let '(db2, eff2) :=
    if power_off_instances then _power_off_instances self1 now db1
    else (db1, []) in
  (self1, cloud_disable self1 db2,
   eff1 ++ eff2 ++
   [CloudDisabled (ca_id self1);
    Notified (ca_user self1) (platform_application_id self1) "unavailable" message]).

(** [CloudAccount.enable]; the transaction restores the tables when the
    cloud-specific call raises, and the exception is raised again. *)
Definition enable (self : CloudAccount) (now : Z) (db : Db)
  : CloudAccount * Db * list Effect * option Exn :=
  let '(self1, db1, eff1) :=
    if is_enabled self then (self, db, [])
    else
      let self1 := set_enabled true now self in
      (self1, save_account self1 db, [SavedAccount self1]) in
  match cloud_enable self1 db1 with
  | inr db2 =>
      (self1, db2,
       eff1 ++ [CloudEnabled (ca_id self1);
                Notified (ca_user self1) (platform_application_id self1)
                  "available" ""],
       None)
  | inl e =>
      (self1, db,
       eff1 ++ [Logged "CG3000";
                NotifiedError (ca_user self1) (platform_application_id self1)
                  "CG3000"],
       Some e)
  end.

(** [cloud_account_pre_delete_callback]. *)
Definition cloud_account_pre_delete_callback (instance : CloudAccount)
    (now : Z) (db : Db) : CloudAccount * Db * list Effect :=
  disable instance "" false now db.

(** [CloudAccount.delete()]: the [pre_delete] signal, the cascade over
    [Instance.cloud_account] with the [post_delete] signal of every
    instance deleted, then the row of the account. *)
Definition delete_cloud_account (self : CloudAccount) (now : Z) (db : Db)
  : Db * list Effect :=
  let collected := instance_set self db in
  let '(_, db1, eff1) := cloud_account_pre_delete_callback self now db in
  let db2 := delete_instance_rows (inst_id <$> collected) db1 in
  let '(db3, eff3) := post_delete_all collected (db2, eff1) in
  ({| cloud_accounts := filter (fun a => ca_id a <> ca_id self) (cloud_accounts db3);
      machine_images := machine_images db3;
      instances := instances db3;
      instance_events := instance_events db3;
      runs := runs db3;
      inspection_starts := inspection_starts db3;
      next_event_id := next_event_id db3;
      next_content_id := next_content_id db3 |},
   eff3).

(** The operations of models.py on the tables. *)
Inductive Op : Type :=
| OpEnable (self : CloudAccount) (now : Z)
| OpDisable (self : CloudAccount) (message : string)
    (power_off_instances : bool) (now : Z)
| OpPowerOffInstances (self : CloudAccount) (power_off_time : Z)
| OpDeleteInstance (instance : Instance)
| OpDeleteCloudAccount (self : CloudAccount) (now : Z).

Definition run_op (op : Op) (db : Db) : Db * list Effect :=
  match op with
  | OpEnable self now =>
      let '(_, db', eff, _) := enable self now db in (db', eff)
  | OpDisable self message power_off now =>
      let '(_, db', eff) := disable self message power_off now db in (db', eff)
  | OpPowerOffInstances self t => _power_off_instances self t db
  | OpDeleteInstance instance => delete_instance instance db
  | OpDeleteCloudAccount self now => delete_cloud_account self now db
  end.

End Operations.

(** A collaborator that leaves the events, the instances and the sequence
    of event keys as they are. *)
Definition keeps_events (f : Db -> Db) : Prop :=
  forall db,
    instance_events (f db) = instance_events db
    /\ instances (f db) = instances db
    /\ next_event_id (f db) = next_event_id db.

(** The same of a collaborator that may raise, when it returns. *)
Definition keeps_events_on_return (f : Db -> Exn + Db) : Prop :=
  forall db db',
    f db = inr db' ->
    instance_events db' = instance_events db
    /\ instances db' = instances db
    /\ next_event_id db' = next_event_id db.

(** What the database guarantees of the event table: keys are unique and
    below the sequence, and [instance] points at a row of the instance
    table. *)
Definition event_table_ok (db : Db) : Prop :=
  NoDup (ev_id <$> instance_events db)
  /\ Forall (fun e => (ev_id e < next_event_id db)%nat) (instance_events db)
  /\ Forall (fun e => ev_instance e ∈ inst_id <$> instances db)
       (instance_events db).

(** How the tables after an operation relate to the tables before it,
    given the effects of the operation: an event found afterwards was there
    before or is a [power_off] without attributes under a fresh key, whose
    creation is among the effects; an event is gone only if no instance has
    the key it points at; the sequence does not go back and no instance
    key appears. *)
Definition evolves (db db' : Db) (eff : list Effect) : Prop :=
  (forall e, e ∈ instance_events db' ->
     e ∈ instance_events db
     \/ ((next_event_id db <= ev_id e)%nat
         /\ event_type e = TYPE_power_off /\ attributes e = None
         /\ CreatedEvent e ∈ eff))
  /\ (forall e, e ∈ instance_events db ->
       e ∈ instance_events db' \/ ev_instance e ∉ inst_id <$> instances db')
  /\ (next_event_id db <= next_event_id db')%nat
  /\ (forall i, i ∈ inst_id <$> instances db' -> i ∈ inst_id <$> instances db).

(** No event is created among the effects. *)
Definition quiet (eff : list Effect) : Prop :=
  Forall (fun x => match x with CreatedEvent _ => False | _ => True end) eff.

(** Every event created among the effects is handed to
    [recalculate_runs] at once. *)
Definition reconciled (eff : list Effect) : Prop :=
  forall k e, eff !! k = Some (CreatedEvent e) ->
    eff !! S k = Some (RecalculatedRuns e).

(** The invariant of an event: a type among the choices, and attributes
    only on [power_on] and [attribute_change]. *)
Definition event_ok (e : InstanceEvent) : bool :=
  valid_event_type (event_type e)
  && match attributes e with
     | None => true
     | Some _ =>
         bool_decide (event_type e = TYPE_power_on)
         || bool_decide (event_type e = TYPE_attribute_change)
     end.

(** [CloudAccount.objects.get(id=...)]. *)
Definition find_account (k : nat) (db : Db) : option CloudAccount :=
  find (fun a => bool_decide (ca_id a = k)) (cloud_accounts db).

(** The test [_power_off_instances] makes of an instance: it has a last
    event and that event is not a [power_off]. *)
Definition needs_power_off (db : Db) (inst : Instance) : bool :=
  match last_event inst db with
  | Some last => bool_decide (event_type last <> TYPE_power_off)
  | None => false
  end.

(** The events the operation found no need to create: those of the table
    before it. *)
Definition new_events (db db' : Db) : list InstanceEvent :=
  drop (length (instance_events db)) (instance_events db').

(** The event [_power_off_instances] creates at [power_off_time] for an
    instance: a [power_off] of that instance, without attributes, whose
    cloud-specific row is of the class of the instance's last event. *)
Definition powered_off_by (db : Db) (power_off_time : Z) (inst : Instance)
    (e : InstanceEvent) : Prop :=
  ev_instance e = inst_id inst
  /\ event_type e = TYPE_power_off
  /\ occurred_at e = power_off_time
  /\ attributes e = None
  /\ exists last, last_event inst db = Some last
                  /\ ce_class (content_object e) = ce_class (content_object last).

(** A collaborator that leaves the account table as it is. *)
Definition keeps_accounts (f : Db -> Db) : Prop :=
  forall db, cloud_accounts (f db) = cloud_accounts db.

(** What the foreign keys of models.py promise: every reference points at
    a row of the table it names. *)
Definition references_ok (db : Db) : Prop :=
  Forall (fun e => ev_instance e ∈ inst_id <$> instances db) (instance_events db)
  /\ Forall (fun r =>
               run_instance r ∈ inst_id <$> instances db
               /\ forall m, machineimage r = Some m ->
                            m ∈ mi_id <$> machine_images db) (runs db)
  /\ Forall (fun x => forall m, machine_image x = Some m ->
                                m ∈ mi_id <$> machine_images db) (instances db)
  /\ Forall (fun x => mis_machineimage x ∈ mi_id <$> machine_images db)
       (inspection_starts db).

(** Values as [json.loads] builds them, and Python's test of truth on
    them. *)
#[warnings="-register-all"]
Inductive PyVal : Type :=
| PyNone
| PyBool (b : bool)
| PyInt (n : Z)
| PyFloat (x : float)
| PyStr (s : string)
| PyList (l : list PyVal)
| PyDict (d : list (string * PyVal)).

Definition truthy (v : PyVal) : bool :=
  match v with
  | PyNone => false
  | PyBool b => b
  | PyInt n => negb (n =? 0)
  | PyFloat x => negb (PrimFloat.eqb x 0%float)
  | PyStr s => negb (bool_decide (s = ""))
  | PyList l => match l with [] => false | _ :: _ => true end
  | PyDict d => match d with [] => false | _ :: _ => true end
  end.

(** [d.get(key, default)] on a dict. *)
Fixpoint dict_get (key : string) (d : list (string * PyVal)) (default : PyVal)
  : PyVal :=
  match d with
  | [] => default
  | (k, v) :: d' => if bool_decide (k = key) then v else dict_get key d' default
  end.

(** [a or b]: the first operand when it is true, the second otherwise;
    the second is not evaluated, so cannot raise, when the first is true. *)
Definition py_or (a b : Exn + PyVal) : Exn + PyVal :=
  match a with
  | inl e => inl e
  | inr v => if truthy v then inr v else b
  end.

Section ImageProperties.

(** [json.loads], and the [is_cloud_access] of the cloud-specific image
    behind [content_object], whose code lies outside the source files. *)
Variable json_loads : string -> Exn + PyVal.
Variable content_is_cloud_access : MachineImage -> PyVal.

(** The pattern the properties of [MachineImage] share:
    [if self.inspection_json: return json.loads(...).get(key, default)],
    and [return default] otherwise.  Only a dict has [get]. *)
Definition inspection_field (self : MachineImage) (key : string)
    (default : PyVal) : Exn + PyVal :=
  match inspection_json self with
  | None => inr default
  | Some text =>
      if bool_decide (text = "") then inr default
      else
        match json_loads text with
        | inl e => inl e
        | inr (PyDict d) => inr (dict_get key d default)
        | inr _ => inl (OtherError "AttributeError")
        end
  end.

Definition rhel_version (self : MachineImage) : Exn + PyVal :=
  inspection_field self "rhel_version" PyNone.

Definition rhel_enabled_repos_found (self : MachineImage) : Exn + PyVal :=
  inspection_field self "rhel_enabled_repos_found" (PyBool false).

Definition rhel_product_certs_found (self : MachineImage) : Exn + PyVal :=
  inspection_field self "rhel_product_certs_found" (PyBool false).

Definition rhel_release_files_found (self : MachineImage) : Exn + PyVal :=
  inspection_field self "rhel_release_files_found" (PyBool false).

Definition rhel_signed_packages_found (self : MachineImage) : Exn + PyVal :=
  inspection_field self "rhel_signed_packages_found" (PyBool false).

Definition syspurpose (self : MachineImage) : Exn + PyVal :=
  inspection_field self "syspurpose" PyNone.

(** [MachineImage.rhel_detected]: a chain of [or]. *)
Definition rhel_detected (self : MachineImage) : Exn + PyVal :=
  py_or (inr (PyBool (rhel_detected_by_tag self)))
    (py_or (inr (content_is_cloud_access self))
       (py_or (rhel_enabled_repos_found self)
          (py_or (rhel_product_certs_found self)
             (py_or (rhel_release_files_found self)
                (rhel_signed_packages_found self))))).

(** [MachineImage.rhel]. *)
Definition rhel (self : MachineImage) : Exn + PyVal := rhel_detected self.

(** [MachineImage.openshift]. *)
Definition openshift (self : MachineImage) : bool := openshift_detected self.

(** [MachineImage.is_cloud_access] and, as the code has it,
    [MachineImage.cloud_image_id]. *)
Definition is_cloud_access (self : MachineImage) : PyVal :=
  content_is_cloud_access self.

Definition cloud_image_id (self : MachineImage) : PyVal :=
  content_is_cloud_access self.

End ImageProperties.

(** Whether a result of a property counts as true, when there is one. *)
Definition result_truthy (r : Exn + PyVal) : option bool :=
  match r with
  | inl _ => None
  | inr v => Some (truthy v)
  end.

(** Sample data: one account with three instances, two of them on the same
    image, and collaborators that leave the event table alone. *)
Definition sample_account : CloudAccount :=
  {| ca_id := 1; ca_user := 1; ca_name := "account"; is_enabled := true;
     enabled_at := 0; platform_authentication_id := 11;
     platform_application_id := 12; platform_endpoint_id := 13;
     platform_source_id := 14 |}.

Definition sample_image (m : nat) : MachineImage :=
  {| mi_id := m; inspection_json := None; is_encrypted := false;
     status := "inspected"; rhel_detected_by_tag := false;
     openshift_detected := false; mi_name := None; architecture := None |}.

Definition sample_instance (i m : nat) : Instance :=
  {| inst_id := i; cloud_account := 1; machine_image := Some m |}.

Definition sample_event (k i : nat) (ty : string) (t : Z)
    (profile : option string) : InstanceEvent :=
  {| ev_id := k; ev_instance := i; event_type := ty; occurred_at := t;
     content_object :=
       {| ce_class := "AwsInstanceEvent"; ce_id := k; ce_attributes := profile |} |}.

Definition sample_db : Db :=
  {| cloud_accounts := [sample_account];
     machine_images := [sample_image 7; sample_image 8];
     instances := [sample_instance 1 7; sample_instance 2 7; sample_instance 3 8];
     instance_events :=
       [ sample_event 1 1 "power_on" 10 (Some "m5.large");
         sample_event 2 2 "power_on" 12 (Some "m5.large");
         sample_event 3 2 "power_off" 20 None;
         sample_event 4 3 "attribute_change" 15 (Some "m5.xlarge") ];
     runs := [];
     inspection_starts := [];
     next_event_id := 5;
     next_content_id := 5 |}.

Definition sample_recalculate_runs (e : InstanceEvent) (db : Db) : Db :=
  {| cloud_accounts := cloud_accounts db;
     machine_images := machine_images db;
     instances := instances db;
     instance_events := instance_events db;
     runs := filter (fun r => run_instance r <> ev_instance e) (runs db);
     inspection_starts := inspection_starts db;
     next_event_id := next_event_id db;
     next_content_id := next_content_id db |}.

Definition sample_cloud_enable (a : CloudAccount) (db : Db) : Exn + Db :=
  if bool_decide (ca_id a = 1%nat) then inr db else inl (OtherError "no access").

Definition sample_cloud_disable (a : CloudAccount) (db : Db) : Db := db.

Definition sample_run_op : Op -> Db -> Db * list Effect :=
  run_op sample_recalculate_runs sample_cloud_enable sample_cloud_disable.

(** Sample inspection results: the text of a JSON object with one finding,
    and a [json.loads] that knows that text and a few short ones. *)
Definition double_quote : string := String "034" EmptyString.

Definition sample_inspection_text : string :=
  "{" +:+ double_quote +:+ "rhel_release_files_found" +:+ double_quote
  +:+ ": true}".

Definition sample_json_loads (text : string) : Exn + PyVal :=
  if bool_decide (text = sample_inspection_text) then
    inr (PyDict [("rhel_release_files_found", PyBool true)])
  else if bool_decide (text = "{}") then inr (PyDict [])
  else if bool_decide (text = "[]") then inr (PyList [])
  else if bool_decide (text = "null") then inr PyNone
  else inl ValueError.

Definition sample_no_cloud_access (image : MachineImage) : PyVal := PyBool false.

Definition sample_inspected (tagged : bool) (text : string) : MachineImage :=
  {| mi_id := 9; inspection_json := Some text; is_encrypted := false;
     status := "inspected"; rhel_detected_by_tag := tagged;
     openshift_detected := false; mi_name := None; architecture := None |}.


End Models.

(** *** The catalog refresh of [api/clouds/aws/tasks/maintenance.py] *)

Module Maintenance.

(** Modelled from the spec: a row of [AwsEC2InstanceDefinition]
    ([api.clouds.aws.models], not among the source files), the profile the
    Catalog Lookup returns for an instance type name.  The table is keyed by
    [instance_type]. *)
Record InstanceDefinition : Type := {
  memory : float;
  vcpu : Z
}.

(** An entry of [page["PriceList"]] as
    [json.loads(instance)["product"]["attributes"]] sees it: the expression
    raises, or it yields the attributes, a JSON object of strings. *)
Inductive PriceListEntry : Type :=
| Raises (e : Exn)
| Attributes (attrs : gmap string string).

Inductive LogRecord : Type :=
| LogInfo (message : string)
| LogFetchError (instance_type : string) (memory vcpu : option string)
| LogSaved (instance_type : string)
| LogExists (instance_type : string)
| LogException (message : string).

(** [s[:-4]]. *)
Definition drop_last4 (s : string) : string :=
  String.substring 0 (String.length s - 4) s.

(** [s.replace(",", "")]. *)
Fixpoint remove_commas (s : string) : string :=
  match s with
  | EmptyString => EmptyString
  | String c s' =>
      if bool_decide (c = ","%char) then remove_commas s'
      else String c (remove_commas s')
  end.

(** [d[k] = v] on a Python dict, which keeps insertion order. *)
Fixpoint dict_set {V : Type} (k : string) (v : V) (d : list (string * V))
  : list (string * V) :=
  match d with
  | [] => [(k, v)]
  | (k', v') :: d' =>
      if bool_decide (k' = k) then (k, v) :: d' else (k', v') :: dict_set k v d'
  end.

(** The locals of [_fetch_ec2_instance_type_definitions] that live across
    iterations, and the log.  [instance_attr] is unbound until the first
    entry has been decoded, and keeps its value afterwards. *)
Record FetchState : Type := {
  instances : list (string * InstanceDefinition);
  instance_attr : option (gmap string string);
  fetch_log : list LogRecord
}.

Section Refresh.

(** [float] and [int] applied to a string: [None] is a [ValueError]. *)
Variable py_float : string -> option float.
Variable py_int : string -> option Z.

(** [AwsEC2InstanceDefinition.objects.get_or_create] raising, which the
    code expects of the database (it catches [IntegrityError]). *)
Variable db_fault : gmap string InstanceDefinition -> string -> option Exn.

(** [float(instance_attr.get("memory", 0)[:-4].replace(",", ""))]: the
    default [0] cannot be sliced. *)
Definition parse_memory (attrs : gmap string string) : Exn + float :=
  match attrs !! "memory" with
  | None => inl TypeError
  | Some m =>
      match py_float (remove_commas (drop_last4 m)) with
      | None => inl ValueError
      | Some x => inr x
      end
  end.

(** [int(instance_attr.get("vcpu", 0))]. *)
Definition parse_vcpu (attrs : gmap string string) : Exn + Z :=
  match attrs !! "vcpu" with
  | None => inr 0
  | Some v =>
      match py_int v with
      | None => inl ValueError
      | Some n => inr n
      end
  end.

(** The statements of the [try] block after [instance_attr] is bound. *)
Definition parse_entry (attrs : gmap string string)
  : Exn + (string * InstanceDefinition) :=
  match parse_memory attrs with
  | inl e => inl e
  | inr m =>
      match parse_vcpu attrs with
      | inl e => inl e
      | inr v =>
          match attrs !! "instanceType" with
          | None => inl KeyError
          | Some name => inr (name, {| memory := m; vcpu := v |})
          end
      end
  end.

(** The [except ValueError] block: it reads [instance_attr] as the
    function's scope has it at that moment. *)
Definition log_fetch_error (st : FetchState) : FetchState * option Exn :=
  match instance_attr st with
  | None => (st, Some UnboundLocalError)
  | Some attrs =>
      match attrs !! "instanceType" with
      | None => (st, Some KeyError)
      | Some name =>
          ({| instances := instances st;
              instance_attr := instance_attr st;
              fetch_log :=
                fetch_log st ++
                [LogFetchError name (attrs !! "memory") (attrs !! "vcpu")] |},
           None)
      end
  end.

(** One iteration of the inner loop. *)
Definition fetch_entry (st : FetchState) (entry : PriceListEntry)
  : FetchState * option Exn :=
  match entry with
  | Raises e =>
      if bool_decide (e = ValueError) then log_fetch_error st else (st, Some e)
  | Attributes attrs =>
      let st1 := {| instances := instances st;
                    instance_attr := Some attrs;
                    fetch_log := fetch_log st |} in
      match parse_entry attrs with
      | inr (name, d) =>
          ({| instances := dict_set name d (instances st1);
              instance_attr := instance_attr st1;
              fetch_log := fetch_log st1 |},
           None)
      | inl e =>
          if bool_decide (e = ValueError) then log_fetch_error st1
          else (st1, Some e)
      end
  end.

(** [_fetch_ec2_instance_type_definitions]; [pages] is what the paginator
    yields, each page by its ["PriceList"]. *)
Definition _fetch_ec2_instance_type_definitions
    (pages : list (list PriceListEntry)) : FetchState * option Exn :=
  for_each (for_each fetch_entry)
    {| instances := [];
       instance_attr := None;
       fetch_log := [LogInfo "Getting AWS EC2 instance type information."] |}
    pages.

(** [get_or_create(instance_type=name, defaults=...)]. *)
Definition get_or_create (name : string) (defaults : InstanceDefinition)
    (store : gmap string InstanceDefinition)
  : Exn + (InstanceDefinition * bool * gmap string InstanceDefinition) :=
  match db_fault store name with
  | Some e => inl e
  | None =>
      match store !! name with
      | Some obj => inr (obj, false, store)
      | None => inr (defaults, true, <[name := defaults]> store)
      end
  end.

(** The body of the loop of [_save_ec2_instance_type_definitions]. *)
Definition save_definition
    (st : gmap string InstanceDefinition * list LogRecord)
    (item : string * InstanceDefinition)
  : gmap string InstanceDefinition * list LogRecord * option Exn :=
  let '(store, log) := st in
  let '(name, attributes) := item in
  match get_or_create name attributes store with
  | inr (_, created, store') =>
      (store', log ++ [if created then LogSaved name else LogExists name], None)
  | inl e =>
      if bool_decide (e = IntegrityError) then
        (store,
         log ++ [LogException "Failed to get_or_create an AwsEC2InstanceDefinition"],
         Some e)
      else (store, log, Some e)
  end.

(** [_save_ec2_instance_type_definitions]. *)
Definition _save_ec2_instance_type_definitions
    (definitions : list (string * InstanceDefinition))
    (store : gmap string InstanceDefinition)
  : gmap string InstanceDefinition * list LogRecord * option Exn :=
  for_each save_definition (store, []) definitions.

(** [with transaction.atomic():] around a block: an exception leaving the
    block undoes what the block wrote. *)
Definition atomic {L : Type}
    (block : gmap string InstanceDefinition ->
             gmap string InstanceDefinition * L * option Exn)
    (store : gmap string InstanceDefinition)
  : gmap string InstanceDefinition * L * option Exn :=
  match block store with
  | (store', out, None) => (store', out, None)
  | (_, out, Some e) => (store, out, Some e)
  end.

(** The [try] block inside the transaction: log and raise again. *)
Definition save_or_log (definitions : list (string * InstanceDefinition))
    (store : gmap string InstanceDefinition)
  : gmap string InstanceDefinition * list LogRecord * option Exn :=
  match _save_ec2_instance_type_definitions definitions store with
  | (store', log, None) => (store', log, None)
  | (store', log, Some e) =>
      (store',
       log ++ [LogException "Failed to save EC2 instance definitions; rolling back."],
       Some e)
  end.

(** [repopulate_ec2_instance_mapping]. *)
Definition repopulate_ec2_instance_mapping
    (pages : list (list PriceListEntry))
    (store : gmap string InstanceDefinition)
  : gmap string InstanceDefinition * list LogRecord * option Exn :=
  match _fetch_ec2_instance_type_definitions pages with
  | (st, Some e) => (store, fetch_log st, Some e)
  | (st, None) =>
      match atomic (save_or_log (instances st)) store with
      | (store', log, None) =>
          (store',
           fetch_log st ++ log ++
           [LogInfo "Finished saving AWS EC2 instance type definitions."],
           None)
      | (store', log, Some e) => (store', fetch_log st ++ log, Some e)
      end
  end.

(** The entry decodes, and [float] or [int] refuses its memory or its
    vcpu. *)
Definition fails_to_parse (entry : PriceListEntry) : Prop :=
  match entry with
  | Raises _ => False
  | Attributes attrs =>
      (exists m, attrs !! "memory" = Some m
                 /\ py_float (remove_commas (drop_last4 m)) = None)
      \/ (exists v, attrs !! "vcpu" = Some v /\ py_int v = None)
  end.

(** The entry decodes and carries the two attributes the loop reads
    without a default it can use: [instanceType] and [memory]. *)
Definition well_formed (entry : PriceListEntry) : Prop :=
  match entry with
  | Raises _ => False
  | Attributes attrs =>
      is_Some (attrs !! "instanceType") /\ is_Some (attrs !! "memory")
  end.

(** The entry decodes and all of the [try] block succeeds on it. *)
Definition parses (entry : PriceListEntry) : bool :=
  match entry with
  | Raises _ => false
  | Attributes attrs =>
      match parse_entry attrs with
      | inr _ => true
      | inl _ => false
      end
  end.

(** What the [try] block stores for an entry when it succeeds on it. *)
Definition store_entry (d : list (string * InstanceDefinition))
    (entry : PriceListEntry) : list (string * InstanceDefinition) :=
  match entry with
  | Attributes attrs =>
      match parse_entry attrs with
      | inr (name, def) => dict_set name def d
      | inl _ => d
      end
  | Raises _ => d
  end.

(** The definitions of a list of entries, in the order the loop stores
    them. *)
Definition definitions_of (entries : list PriceListEntry)
  : list (string * InstanceDefinition) :=
  foldl store_entry [] entries.

(** The error record the loop logs for an entry. *)
Definition error_record (entry : PriceListEntry) : list LogRecord :=
  match entry with
  | Attributes attrs =>
      match attrs !! "instanceType" with
      | Some name => [LogFetchError name (attrs !! "memory") (attrs !! "vcpu")]
      | None => []
      end
  | Raises _ => []
  end.

(** What the loop logs for an entry: nothing when the [try] block
    succeeds, the error record otherwise. *)
Definition skipped (entry : PriceListEntry) : list LogRecord :=
  if parses entry then [] else error_record entry.

End Refresh.

(** Plain decimal numerals, for the examples: digits, for a float with an
    optional fraction.  On these [float_of_decimal] and [int_of_digits]
    agree with Python's [float] and [int] as long as the numeral has no
    more than fifteen digits. *)
Definition digit_value (c : ascii) : option Z :=
  let n := Z.of_N (Ascii.N_of_ascii c) in
  if (48 <=? n) && (n <=? 57) then Some (n - 48) else None.

Fixpoint digits_value (acc : Z) (s : string) : option Z :=
  match s with
  | EmptyString => Some acc
  | String c s' =>
      match digit_value c with
      | Some d => digits_value (10 * acc + d) s'
      | None => None
      end
  end.

Definition int_of_digits (s : string) : option Z :=
  match s with
  | EmptyString => None
  | _ => digits_value 0 s
  end.

Fixpoint split_dot (s : string) : string * option string :=
  match s with
  | EmptyString => (EmptyString, None)
  | String c s' =>
      if bool_decide (c = "."%char) then (EmptyString, Some s')
      else let '(a, b) := split_dot s' in (String c a, b)
  end.

Definition float_of_Z (n : Z) : float :=
  PrimFloat.of_uint63 (Uint63.of_Z n).

Definition float_of_decimal (s : string) : option float :=
  let '(whole, frac) := split_dot s in
  let frac := default EmptyString frac in
  match int_of_digits (whole +:+ frac) with
  | None => None
  | Some n =>
      Some (PrimFloat.div (float_of_Z n)
              (float_of_Z (10 ^ Z.of_nat (String.length frac))))
  end.

(** [d.get(k)] on a Python dict. *)
Fixpoint dict_lookup {V : Type} (k : string) (d : list (string * V)) : option V :=
  match d with
  | [] => None
  | (k', v) :: d' => if bool_decide (k' = k) then Some v else dict_lookup k d'
  end.

(** The characters of a string other than the comma, in order. *)
Definition without_commas (s : string) : list ascii :=
  filter (fun c => c <> ","%char) (String.list_ascii_of_string s).

(** Sample data: a price list with one entry whose memory is not a number,
    and a database that refuses one instance type. *)
Definition sample_entry (name mem cpus : string) : PriceListEntry :=
  Attributes {[ "instanceType" := name; "memory" := mem; "vcpu" := cpus ]}.

Definition sample_pages : list (list PriceListEntry) :=
  [ [ sample_entry "t2.micro" "1 GiB" "1"; sample_entry "x1.odd" "NA" "4" ];
    [ sample_entry "r5.large" "1,952.50 GiB" "2" ] ].

Definition sample_store : gmap string InstanceDefinition :=
  {[ "t2.micro" := {| memory := 0.5%float; vcpu := 8 |} ]}.

Definition sample_db_fault (store : gmap string InstanceDefinition)
    (name : string) : option Exn :=
  if bool_decide (name = "r5.large") then Some IntegrityError else None.

Definition no_db_fault (store : gmap string InstanceDefinition)
    (name : string) : option Exn := None.

(** An entry without [instanceType] whose memory is not a number, and an
    entry without [memory] whose vcpu is not a number. *)
Definition entry_without_type : PriceListEntry :=
  Attributes {[ "memory" := "NA"; "vcpu" := "2" ]}.

Definition entry_without_memory : PriceListEntry :=
  Attributes {[ "instanceType" := "t2.micro"; "vcpu" := "two" ]}.

End Maintenance.

(** *** The migration [api/migrations/0054_delete_deprecated_tasks.py] *)

Module Migration.

(** A row of [django_celery_beat.PeriodicTask], as far as the migration
    reads it. *)
Record PeriodicTask : Type := {
  pt_id : nat;
  pt_name : string;
  task : string
}.

Definition deprecated_tasks : list string :=
  [ "api.clouds.aws.tasks.ensure_all_verify_tasks_are_valid";
    "api.clouds.aws.tasks.scale_up_inspection_cluster";
    "api.clouds.aws.tasks.verify_account_permissions" ].

(** [PeriodicTask.objects.filter(task__in=deprecated_tasks).delete()]. *)
Definition delete_deprecated_tasks (table : list PeriodicTask)
  : list PeriodicTask :=
  filter (fun row => task row ∉ deprecated_tasks) table.

End Migration.

(** ** Part II. Properties *)

(** *** The Reconciliation Engine *)

Section EngineProperties.

Import Engine.

Lemma sorted_from_weaken lo lo' l :
  lo' <= lo -> sorted_from lo l -> sorted_from lo' l.
Proof. destruct l as [|e l]; simpl; [done|]. intros ? [? ?]. split; [lia|done]. Qed.

Lemma insert_event_sorted e : forall l lo,
  lo <= occurred_at e -> sorted_from lo l -> sorted_from lo (insert_event e l).
Proof.
  induction l as [|x l IH]; intros lo Hlo Hs; simpl in *.
  - done.
  - destruct Hs as [Hx Hl].
    destruct (Z.ltb_spec (occurred_at x) (occurred_at e)); simpl.
    + split; [done|]. apply IH; [lia|done].
    + repeat split; [done|lia|done].
Qed.

Lemma sort_events_sorted l : exists lo, sorted_from lo (sort_events l).
Proof.
  induction l as [|e l [lo IH]]; simpl.
  - by exists 0.
  - exists (Z.min lo (occurred_at e)).
    apply insert_event_sorted; [lia|].
    eapply sorted_from_weaken; [|exact IH]. lia.
Qed.

Lemma chain_weaken : forall rs lo hi hi',
  hi <= hi' -> chain lo rs hi -> chain lo rs hi'.
Proof.
  induction rs as [|r rs IH]; intros lo hi hi' Hle; simpl; [lia|].
  intros (e & ? & ? & ? & Hc). exists e. eauto.
Qed.

Lemma chain_snoc : forall rs lo hi r e,
  chain lo rs hi -> hi <= start_time r -> end_time r = Some e ->
  start_time r <= e -> chain lo (rs ++ [r]) e.
Proof.
  induction rs as [|x rs IH]; intros lo hi r e; simpl.
  - intros ? ? He ?. exists e. repeat split; [done|lia|done|lia].
  - intros (e' & ? & ? & ? & Hc) ? ? ?. exists e'. eauto 10.
Qed.

Lemma chain_chain_open : forall rs lo hi, chain lo rs hi -> chain_open lo rs.
Proof.
  induction rs as [|r rs IH]; intros lo hi; simpl; [done|].
  intros (e & He & ? & ? & Hc). destruct rs as [|r' rs].
  - split; [done|]. intros e' He'. congruence.
  - exists e. eauto 10.
Qed.

Lemma chain_open_snoc : forall rs lo hi r,
  chain lo rs hi -> hi <= start_time r ->
  (forall e, end_time r = Some e -> start_time r <= e) ->
  chain_open lo (rs ++ [r]).
Proof.
  induction rs as [|x rs IH]; intros lo hi r; simpl.
  - intros ? ? ?. split; [lia|done].
  - intros (e & ? & ? & ? & Hc) ? ?.
    destruct (rs ++ [r]) as [|y l] eqn:E.
    + by destruct rs.
    + exists e. repeat split; try done. rewrite <- E. eauto.
Qed.

Lemma chain_open_lower : forall rs lo j r,
  chain_open lo rs -> rs !! j = Some r -> lo <= start_time r.
Proof.
  induction rs as [|x rs IH]; intros lo j r; [done|].
  simpl. destruct rs as [|y rs].
  - intros [? _]. destruct j; simpl; [|done]. by intros [= <-].
  - intros (e & ? & ? & ? & Hc). destruct j as [|j]; simpl.
    + by intros [= <-].
    + intros Hj. specialize (IH e j r Hc Hj). lia.
Qed.

Lemma chain_open_pairs : forall rs lo j k r1 r2,
  chain_open lo rs -> (j < k)%nat -> rs !! j = Some r1 -> rs !! k = Some r2 ->
  exists e, end_time r1 = Some e /\ start_time r1 <= e /\ e <= start_time r2.
Proof.
  induction rs as [|x rs IH]; intros lo j k r1 r2; [done|].
  simpl. destruct rs as [|y rs].
  - intros _ Hjk _ Hk. destruct k; [lia|done].
  - intros (e & ? & ? & ? & Hc) Hjk Hj Hk.
    destruct k as [|k]; [lia|]. simpl in Hk.
    destruct j as [|j]; simpl in Hj.
    + injection Hj as <-. exists e. repeat split; try done.
      eapply chain_open_lower; eauto.
    + apply (IH e j k r1 r2 Hc); [lia|done|done].
Qed.

Lemma chain_open_well_formed lo rs : chain_open lo rs -> runs_well_formed rs.
Proof.
  intros Hc. repeat split.
  - intros j k r1 r2 Hjk Hj Hk.
    destruct (chain_open_pairs _ _ _ _ _ _ Hc Hjk Hj Hk) as (e & _ & ? & ?). lia.
  - intros j k r1 r2 Hne Hj Hk. unfold overlaps.
    destruct (decide (j < k)%nat) as [Hjk|Hjk].
    + destruct (chain_open_pairs _ _ _ _ _ _ Hc Hjk Hj Hk) as (e & -> & ? & ?).
      simpl. apply andb_false_intro2. apply Z.ltb_ge. lia.
    + assert (Hkj : (k < j)%nat) by lia.
      destruct (chain_open_pairs _ _ _ _ _ _ Hc Hkj Hk Hj) as (e & -> & ? & ?).
      simpl. apply andb_false_intro1. apply Z.ltb_ge. lia.
  - intros j r Hj Hnone.
    pose proof (lookup_lt_Some _ _ _ Hj) as Hlt.
    destruct (decide (S j = length rs)) as [|Hne]; [done|].
    destruct (lookup_lt_is_Some_2 rs (S j)) as [r2 Hk]; [lia|].
    destruct (chain_open_pairs _ _ j (S j) _ _ Hc ltac:(lia) Hj Hk) as (e & ? & _).
    congruence.
Qed.

Section ReplayFacts.

Variable reopen : bool.
Variable cat : gmap string HardwareProfile.
Variable i : nat.

Lemma replay_step_inv lo st t e :
  replay_inv lo st t -> t <= occurred_at e ->
  replay_inv lo (replay_step reopen cat i st e) (occurred_at e).
Proof.
  unfold replay_inv, replay_step. intros Hinv Hle.
  destruct (current_start st) as [start|] eqn:Hs.
  - destruct Hinv as [Hc Hst].
    destruct (event_type e); simpl; rewrite ?Hs.
    + split; [done|lia].
    + eapply chain_snoc; eauto; simpl; lia.
    + case_bool_decide; simpl; rewrite ?Hs.
      * split; [done|lia].
      * split; [|lia]. eapply chain_snoc; eauto; simpl; lia.
  - assert (chain lo (pending_runs st) (occurred_at e))
      by (eapply chain_weaken; eauto).
    destruct (event_type e); simpl; rewrite ?Hs; try (split; [done|lia]); try done.
    destruct (pending_runs st) eqn:Hp; simpl; rewrite ?Hp.
    + split; [done|lia].
    + destruct reopen; simpl; rewrite ?Hs, ?Hp; [split; [done|lia]|done].
Qed.

Lemma replay_inv_fold lo : forall history st t,
  replay_inv lo st t -> sorted_from t history ->
  exists t', replay_inv lo (foldl (replay_step reopen cat i) st history) t'.
Proof.
  induction history as [|e history IH]; intros st t Hinv Hs; simpl in *.
  - eauto.
  - destruct Hs as [Hle Hs]. apply (IH _ (occurred_at e)); [|exact Hs].
    by apply (replay_step_inv lo st t).
Qed.

Lemma finish_well_formed lo st t :
  replay_inv lo st t -> runs_well_formed (finish cat i st).
Proof.
  unfold replay_inv, finish. destruct (current_start st) as [start|].
  - intros [Hc _]. apply (chain_open_well_formed lo).
    eapply chain_open_snoc; eauto; simpl; [lia|done].
  - intros Hc. apply (chain_open_well_formed lo). by eapply chain_chain_open.
Qed.

Lemma replay_well_formed lo history :
  sorted_from lo history -> runs_well_formed (replay reopen cat i history).
Proof.
  intros Hs. unfold replay.
  destruct (replay_inv_fold lo history initial_state lo) as [t Ht]; [|done|].
  - unfold replay_inv; simpl. lia.
  - by eapply finish_well_formed.
Qed.

Lemma replay_step_enriched st e :
  Forall (enriched cat) (pending_runs st) ->
  Forall (enriched cat) (pending_runs (replay_step reopen cat i st e)).
Proof.
  intros Hall. unfold replay_step.
  assert (Hclose : forall start stop,
    Forall (enriched cat) (pending_runs (close_run cat i st start stop))).
  { intros. simpl. apply Forall_app. split; [done|].
    apply Forall_singleton. by split. }
  destruct (current_start st); destruct (event_type e);
    try exact Hall; try exact (Hclose _ _).
  - case_bool_decide; [exact Hall|exact (Hclose _ _)].
  - destruct (pending_runs st) eqn:Hp; [by rewrite <- Hp in Hall|].
    destruct reopen; by rewrite <- Hp in Hall.
Qed.

Lemma replay_enriched history :
  Forall (enriched cat) (replay reopen cat i history).
Proof.
  unfold replay.
  assert (Hfold : forall l st, Forall (enriched cat) (pending_runs st) ->
    Forall (enriched cat) (pending_runs (foldl (replay_step reopen cat i) st l))).
  { induction l as [|e l IH]; intros st Hst; simpl; [done|].
    apply IH. by apply replay_step_enriched. }
  specialize (Hfold history initial_state (Forall_nil_2 _)).
  unfold finish. destruct (current_start _); [|done].
  apply Forall_app. split; [done|]. apply Forall_singleton. by split.
Qed.

Variable cat' : gmap string HardwareProfile.

Lemma replay_step_same_intervals st st' e :
  same_intervals st st' ->
  same_intervals (replay_step reopen cat i st e) (replay_step reopen cat' i st' e).
Proof.
  intros (Hp & Hs & Hr). unfold replay_step. rewrite <- Hs, <- Hp.
  assert (Hclose : forall start stop,
    same_intervals (close_run cat i st start stop) (close_run cat' i st' start stop)).
  { intros. repeat split; simpl. rewrite !fmap_app, Hr. simpl.
    by rewrite Hp. }
  assert (Hopen : forall a b, same_intervals a b ->
    same_intervals (open_run a e) (open_run b e)).
  { intros a b (? & ? & ?). by repeat split. }
  assert (Hst : same_intervals st st') by done.
  destruct (current_start st); destruct (event_type e); auto.
  - case_bool_decide; auto.
  - destruct (pending_runs st), (pending_runs st'); try done; auto.
    destruct reopen; auto.
Qed.

Lemma replay_same_intervals history :
  interval_of <$> replay reopen cat i history
  = interval_of <$> replay reopen cat' i history.
Proof.
  unfold replay.
  assert (Hfold : forall l st st', same_intervals st st' ->
    same_intervals (foldl (replay_step reopen cat i) st l)
                   (foldl (replay_step reopen cat' i) st' l)).
  { induction l as [|e l IH]; intros st st' Hst; simpl; [done|].
    apply IH. by apply replay_step_same_intervals. }
  destruct (Hfold history initial_state initial_state) as (Hp & Hs & Hr);
    [done|].
  unfold finish. rewrite <- Hs. destruct (current_start _); [|done].
  rewrite !fmap_app, Hr. simpl. by rewrite Hp.
Qed.

End ReplayFacts.

Lemma runs_of_Reconcile reopen i s :
  runs_of i (Reconcile reopen i s)
  = replay reopen (catalog s) i (GetEventHistory i (event_store s)).
Proof. unfold runs_of, Reconcile, ReplaceRuns. simpl. by rewrite lookup_insert_eq. Qed.

(** C1. Reconciling an instance a second time, with no event recorded in
    between, changes nothing: the system, and with it the Run Store and the
    Run set of the instance, is the one the first pass left. *)
Theorem reconcile_idempotent reopen i s :
  Reconcile reopen i (Reconcile reopen i s) = Reconcile reopen i s
  /\ run_store (Reconcile reopen i (Reconcile reopen i s))
     = run_store (Reconcile reopen i s)
  /\ runs_of i (Reconcile reopen i (Reconcile reopen i s))
     = runs_of i (Reconcile reopen i s).
Proof.
  assert (H : Reconcile reopen i (Reconcile reopen i s) = Reconcile reopen i s).
  { unfold Reconcile, ReplaceRuns. simpl. f_equal. apply insert_insert_eq. }
  by rewrite H.
Qed.

(** C2. In every system the operations can produce, the Runs stored for an
    instance are ordered by start time, pairwise non-overlapping (a null end
    read as +infinity), and only the last of them may have a null end. *)
Theorem runs_invariant reopen s :
  reachable reopen s ->
  forall i rs, run_store s !! i = Some rs -> runs_well_formed rs.
Proof.
  induction 1 as [cat|e s _ IH|cat s _ IH|j s _ IH]; intros i rs; simpl.
  - by rewrite lookup_empty.
  - apply IH.
  - apply IH.
  - destruct (decide (j = i)) as [->|Hne].
    + rewrite lookup_insert_eq. intros [= <-].
      destruct (sort_events_sorted
                  (filter (fun e => instance_id e = i) (event_store s)))
        as [lo Hlo].
      by apply (replay_well_formed reopen (catalog s) i lo).
    + rewrite lookup_insert_ne by done. apply IH.
Qed.

Lemma sample_system_reachable : reachable false sample_system.
Proof.
  unfold sample_system. apply reach_reconcile.
  unfold sample_log. simpl. repeat apply reach_record. apply reach_init.
Defined.

Lemma runs_invariant_witness :
  reachable false sample_system
  /\ run_store sample_system !! 1%nat = Some sample_runs
  /\ runs_well_formed sample_runs.
Proof.
  split; [exact sample_system_reachable|].
  split; [vm_compute; reflexivity|].
  apply (runs_invariant false sample_system sample_system_reachable 1%nat).
  vm_compute; reflexivity.
Defined.

(** C3. A profile identifier the catalog does not know never stops a
    reconciliation and never moves a boundary: the Runs of the instance have
    the same owner, start, end and instance type whatever the catalog holds,
    and a Run whose instance type is unknown has null memory and vcpu. *)
Theorem unknown_profile_is_soft reopen i s :
  (forall cat',
     interval_of <$> runs_of i (Reconcile reopen i (refresh_catalog cat' s))
     = interval_of <$> runs_of i (Reconcile reopen i s))
  /\ (forall r p,
        r ∈ runs_of i (Reconcile reopen i s) ->
        instance_type r = Some p ->
        lookup_profile (catalog s) p = None ->
        memory r = None /\ vcpu r = None).
Proof.
  split.
  - intros cat'. rewrite !runs_of_Reconcile. simpl.
    apply replay_same_intervals.
  - intros r p Hr Hp Hnone. rewrite runs_of_Reconcile in Hr.
    pose proof (replay_enriched reopen (catalog s) i
                  (GetEventHistory i (event_store s))) as Hall.
    rewrite Forall_forall in Hall. destruct (Hall r Hr) as [-> ->].
    rewrite Hp. simpl. by rewrite Hnone.
Qed.

(** The scenarios of the design, replayed. *)
Example scenario_replace_T1_by_T3 :
  replay false sample_catalog 1
    (GetEventHistory 1
       [sample_event 1 power_off 30 None;
        sample_event 1 power_on 0 (Some "m5.large")])
  = [emit_run sample_catalog 1 0 (Some 30) (Some "m5.large")].
Proof. reflexivity. Qed.

Example scenario_back_to_back :
  interval_of <$>
    replay false sample_catalog 1
      [sample_event 1 power_on 0 (Some "m5.large");
       sample_event 1 attribute_change 2 (Some "m5.xlarge");
       sample_event 1 power_off 3 None]
  = [(1%nat, 0, Some 2, Some "m5.large"); (1%nat, 2, Some 3, Some "m5.xlarge")].
Proof. reflexivity. Qed.

Example scenario_duplicate_power_on :
  interval_of <$>
    replay false sample_catalog 1
      [sample_event 1 power_on 0 (Some "m5.large");
       sample_event 1 power_on 5 (Some "m5.large")]
  = [(1%nat, 0, None, Some "m5.large")].
Proof. reflexivity. Qed.

Example scenario_unknown_profile :
  runs_of 1 sample_system = sample_runs.
Proof. vm_compute. reflexivity. Qed.

End EngineProperties.

(** *** The data model *)

Section ModelsProperties.

Import Models.

Example sample_disable_effects :
  (sample_run_op (OpDisable sample_account "" true 100) sample_db).2
  = [ SavedAccount (set_enabled false 0 sample_account);
      CreatedEvent
        {| ev_id := 5; ev_instance := 1; event_type := "power_off";
           occurred_at := 100;
           content_object := {| ce_class := "AwsInstanceEvent"; ce_id := 5;
                                ce_attributes := None |} |};
      RecalculatedRuns
        {| ev_id := 5; ev_instance := 1; event_type := "power_off";
           occurred_at := 100;
           content_object := {| ce_class := "AwsInstanceEvent"; ce_id := 5;
                                ce_attributes := None |} |};
      CreatedEvent
        {| ev_id := 6; ev_instance := 3; event_type := "power_off";
           occurred_at := 100;
           content_object := {| ce_class := "AwsInstanceEvent"; ce_id := 6;
                                ce_attributes := None |} |};
      RecalculatedRuns
        {| ev_id := 6; ev_instance := 3; event_type := "power_off";
           occurred_at := 100;
           content_object := {| ce_class := "AwsInstanceEvent"; ce_id := 6;
                                ce_attributes := None |} |};
      CloudDisabled 1;
      Notified 1 12 "unavailable" "" ].
Proof. vm_compute. reflexivity. Qed.

Lemma quiet_reconciled eff : quiet eff -> reconciled eff.
Proof.
  intros Hq k e Hk. unfold quiet in Hq. rewrite Forall_forall in Hq.
  apply list_elem_of_lookup_2 in Hk. by apply Hq in Hk.
Qed.

Lemma quiet_app l1 l2 : quiet l1 -> quiet l2 -> quiet (l1 ++ l2).
Proof. intros. apply Forall_app. by split. Qed.

Lemma reconciled_app l1 l2 :
  reconciled l1 -> reconciled l2 -> reconciled (l1 ++ l2).
Proof.
  intros H1 H2 k e Hk.
  destruct (decide (k < length l1)%nat).
  - rewrite lookup_app_l in Hk by done. apply H1 in Hk.
    rewrite lookup_app_l; [done|]. by eapply lookup_lt_Some.
  - rewrite lookup_app_r in Hk by lia. apply H2 in Hk.
    rewrite lookup_app_r by lia.
    by replace (S k - length l1)%nat with (S (k - length l1)) by lia.
Qed.

Lemma reconciled_pair e : reconciled [CreatedEvent e; RecalculatedRuns e].
Proof. intros [|[|k]] e' Hk; simpl in *; by simplify_eq. Qed.

Lemma reconciled_cons x l :
  match x with CreatedEvent _ => False | _ => True end ->
  reconciled l -> reconciled (x :: l).
Proof.
  intros Hx Hl. change (reconciled ([x] ++ l)).
  apply reconciled_app; [|done]. apply quiet_reconciled. by constructor.
Qed.

Ltac solve_quiet :=
  unfold quiet;
  repeat first [apply Forall_nil_2 | apply Forall_cons_2; [exact I|]].

Ltac solve_reconciled :=
  repeat first
    [ assumption
    | apply reconciled_cons; [exact I|]
    | apply reconciled_app
    | apply quiet_reconciled; solve_quiet ].

Lemma evolves_same db db' eff :
  instance_events db' = instance_events db ->
  instances db' = instances db ->
  next_event_id db' = next_event_id db ->
  evolves db db' eff.
Proof. intros He Hi Hn. unfold evolves. rewrite He, Hi, Hn. by auto. Qed.

Lemma evolves_refl db eff : evolves db db eff.
Proof. by apply evolves_same. Qed.

Lemma evolves_trans db1 db2 db3 eff1 eff2 :
  evolves db1 db2 eff1 -> evolves db2 db3 eff2 ->
  evolves db1 db3 (eff1 ++ eff2).
Proof.
  intros (A1 & B1 & C1 & D1) (A2 & B2 & C2 & D2).
  split; [|split; [|split]].
  - intros e He. destruct (A2 e He) as [H|(? & ? & ? & ?)].
    + destruct (A1 e H) as [|(? & ? & ? & ?)]; [by left|right].
      repeat split; try done. apply elem_of_app. by left.
    + right. repeat split; [lia|done|done|]. apply elem_of_app. by right.
  - intros e He. destruct (B1 e He) as [H|H].
    + by apply B2 in H.
    + right. intros Hin. apply H. by apply D2.
  - lia.
  - auto.
Qed.

Lemma evolves_then db1 db2 db3 eff :
  evolves db1 db2 [] -> evolves db2 db3 eff -> evolves db1 db3 eff.
Proof. intros H1 H2. exact (evolves_trans _ _ _ [] eff H1 H2). Qed.

Lemma evolves_finally db1 db2 db3 eff :
  evolves db1 db2 eff -> evolves db2 db3 [] -> evolves db1 db3 eff.
Proof.
  intros H1 H2. rewrite <- (app_nil_r eff). by apply (evolves_trans _ db2).
Qed.

Lemma evolves_create cls t inst db :
  let content := (create_cloud_event cls db).1 in
  let db1 := (create_cloud_event cls db).2 in
  let event := (create_event TYPE_power_off t inst content db1).1 in
  evolves db (create_event TYPE_power_off t inst content db1).2
    [CreatedEvent event; RecalculatedRuns event].
Proof.
  split; [|split; [|split]]; simpl.
  - intros e He. apply elem_of_app in He as [He|He]; [by left|].
    apply list_elem_of_singleton in He as ->. right. simpl.
    repeat split; try done. apply elem_of_cons. by left.
  - intros e He. left. apply elem_of_app. by left.
  - lia.
  - done.
Qed.

Lemma evolves_delete_instance_rows ids db :
  evolves db (delete_instance_rows ids db) [].
Proof.
  split; [|split; [|split]]; simpl.
  - intros e He. apply list_elem_of_filter in He as [_ He]. by left.
  - intros e He. destruct (decide (ev_instance e ∈ ids)) as [Hin|Hout].
    + right. intros Hx. apply list_elem_of_fmap in Hx as (x & Hx & Hxin).
      apply list_elem_of_filter in Hxin as [Hxout _]. congruence.
    + left. apply list_elem_of_filter. by split.
  - lia.
  - intros i Hi. apply list_elem_of_fmap in Hi as (x & -> & Hx).
    apply list_elem_of_filter in Hx as [_ Hx]. by apply list_elem_of_fmap_2.
Qed.

Lemma evolves_delete_machine_image m db eff :
  evolves db (delete_machine_image m db) eff.
Proof.
  unfold delete_machine_image.
  eapply evolves_then; [apply evolves_delete_instance_rows|].
  by apply evolves_same.
Qed.

Lemma evolves_post_delete_callback instance db :
  evolves db (instance_post_delete_callback instance db).1
    (instance_post_delete_callback instance db).2.
Proof.
  unfold instance_post_delete_callback.
  destruct (machine_image instance) as [m|]; [|apply evolves_refl].
  destruct (find_image m db); [|apply evolves_refl].
  destruct (image_used_elsewhere instance m db); [apply evolves_refl|].
  apply evolves_delete_machine_image.
Qed.

Lemma quiet_post_delete_callback instance db :
  quiet (instance_post_delete_callback instance db).2.
Proof.
  unfold instance_post_delete_callback.
  destruct (machine_image instance) as [m|]; [|solve_quiet].
  destruct (find_image m db); [|solve_quiet].
  destruct (image_used_elsewhere instance m db); solve_quiet.
Qed.

Lemma evolves_delete_instance instance db :
  evolves db (delete_instance instance db).1 (delete_instance instance db).2.
Proof.
  unfold delete_instance.
  eapply evolves_then; [apply evolves_delete_instance_rows|].
  apply evolves_post_delete_callback.
Qed.

Lemma post_delete_all_spec db0 : forall l st,
  evolves db0 st.1 st.2 -> quiet st.2 ->
  evolves db0 (post_delete_all l st).1 (post_delete_all l st).2
  /\ quiet (post_delete_all l st).2.
Proof.
  unfold post_delete_all.
  induction l as [|x l IH]; intros [db eff] Hev Hq; simpl in *; [done|].
  pose proof (evolves_post_delete_callback x db) as Hcb.
  pose proof (quiet_post_delete_callback x db) as Hqcb.
  destruct (instance_post_delete_callback x db) as [db' eff'].
  apply IH; simpl.
  - by eapply evolves_trans.
  - by apply quiet_app.
Qed.

Lemma NoDup_fmap_eq {A B : Type} (f : A -> B) (l : list A) x y :
  NoDup (f <$> l) -> x ∈ l -> y ∈ l -> f x = f y -> x = y.
Proof.
  induction l as [|a l IH]; simpl; intros Hnd Hx Hy Hf.
  - by apply elem_of_nil in Hx.
  - apply NoDup_cons in Hnd as [Ha Hnd].
    apply elem_of_cons in Hx as [->|Hx]; apply elem_of_cons in Hy as [->|Hy].
    + done.
    + exfalso. apply Ha. rewrite Hf. by apply list_elem_of_fmap_2.
    + exfalso. apply Ha. rewrite <- Hf. by apply list_elem_of_fmap_2.
    + by apply IH.
Qed.

Lemma valid_event_type_spec ty :
  valid_event_type ty = true <->
  ty = "power_on" \/ ty = "power_off" \/ ty = "attribute_change".
Proof.
  unfold valid_event_type, TYPE. rewrite bool_decide_eq_true.
  rewrite !elem_of_cons, elem_of_nil. tauto.
Qed.

Lemma event_ok_spec e :
  event_ok e = true ->
  (event_type e = "power_on" \/ event_type e = "power_off"
   \/ event_type e = "attribute_change")
  /\ (is_Some (attributes e) ->
      event_type e = "power_on" \/ event_type e = "attribute_change").
Proof.
  unfold event_ok. intros [Hty Hattr]%andb_prop. split.
  - by apply valid_event_type_spec.
  - intros [p Hp]. rewrite Hp in Hattr.
    apply orb_prop in Hattr as [H|H]; apply bool_decide_eq_true in H; auto.
Qed.

Section OperationFacts.

Variable recalculate_runs : InstanceEvent -> Db -> Db.
Variable cloud_enable : CloudAccount -> Db -> Exn + Db.
Variable cloud_disable : CloudAccount -> Db -> Db.

Abbreviation power_off := (_power_off_instances recalculate_runs).
Abbreviation run := (run_op recalculate_runs cloud_enable cloud_disable).

Lemma power_off_instance_reconciled t st inst :
  reconciled st.2 -> reconciled (power_off_instance recalculate_runs t st inst).2.
Proof.
  destruct st as [db eff]. unfold power_off_instance. simpl. intros Hr.
  destruct (last_event inst db); [|done].
  case_bool_decide; [|done]. simpl.
  apply reconciled_app; [done|apply reconciled_pair].
Qed.

Lemma power_off_instances_reconciled self t db :
  reconciled (power_off self t db).2.
Proof.
  unfold _power_off_instances.
  assert (H : forall l st, reconciled st.2 ->
    reconciled (foldl (power_off_instance recalculate_runs t) st l).2).
  { induction l as [|x l IH]; intros st Hst; simpl; [done|].
    apply IH. by apply power_off_instance_reconciled. }
  apply H. by intros k e Hk.
Qed.

Lemma disable_reconciled self message flag now db :
  reconciled (disable recalculate_runs cloud_disable self message flag now db).2.
Proof.
  unfold disable.
  destruct (is_enabled self); destruct flag;
    try match goal with
    | |- context [power_off ?a ?t ?d] =>
        pose proof (power_off_instances_reconciled a t d);
        destruct (power_off a t d)
    end; simpl in *; solve_reconciled.
Qed.

Lemma disable_quiet self message now db :
  quiet (disable recalculate_runs cloud_disable self message false now db).2.
Proof. unfold disable. destruct (is_enabled self); simpl; solve_quiet. Qed.

Lemma enable_quiet self now db :
  quiet (let '(_, _, eff, _) := enable cloud_enable self now db in eff).
Proof.
  unfold enable.
  destruct (is_enabled self); simpl;
    destruct (cloud_enable _ _); simpl; solve_quiet.
Qed.

(** Among the effects of an operation, an event it creates is followed at
    once by the call of [recalculate_runs] on that same event. *)
Lemma run_op_reconciled op db : reconciled (run op db).2.
Proof.
  destruct op as [self now|self message flag now|self t|instance|self now]; simpl.
  - pose proof (enable_quiet self now db) as Hq.
    destruct (enable cloud_enable self now db) as [[[? ?] eff] ?].
    by apply quiet_reconciled.
  - pose proof (disable_reconciled self message flag now db) as Hr.
    by destruct (disable _ _ self message flag now db) as [[? ?] eff].
  - apply power_off_instances_reconciled.
  - apply quiet_reconciled. unfold delete_instance.
    apply quiet_post_delete_callback.
  - apply quiet_reconciled. unfold delete_cloud_account,
      cloud_account_pre_delete_callback.
    pose proof (disable_quiet self "" now db) as Hq.
    destruct (disable _ _ self "" false now db) as [[? db1] eff1].
    simpl in Hq.
    destruct (post_delete_all_spec
                (delete_instance_rows (inst_id <$> instance_set self db) db1)
                (instance_set self db)
                (delete_instance_rows (inst_id <$> instance_set self db) db1, eff1))
      as [_ Hq']; [apply evolves_refl|done|].
    by destruct (post_delete_all _ _) as [db3 eff3].
Qed.

Hypothesis recalculate_keeps : forall e, keeps_events (recalculate_runs e).
Hypothesis enable_keeps : forall a, keeps_events_on_return (cloud_enable a).
Hypothesis disable_keeps : forall a, keeps_events (cloud_disable a).

Lemma evolves_keeps f db eff : keeps_events f -> evolves db (f db) eff.
Proof. intros H. destruct (H db) as (? & ? & ?). by apply evolves_same. Qed.

Lemma evolves_power_off_instance db0 t st inst :
  evolves db0 st.1 st.2 ->
  evolves db0 (power_off_instance recalculate_runs t st inst).1
    (power_off_instance recalculate_runs t st inst).2.
Proof.
  destruct st as [db eff]. unfold power_off_instance. simpl. intros H.
  destruct (last_event inst db) as [last|]; [|done].
  case_bool_decide; [|done]. simpl.
  eapply evolves_trans; [exact H|].
  eapply evolves_finally;
    [exact (evolves_create (ce_class (content_object last)) t inst db)|].
  apply evolves_keeps, recalculate_keeps.
Qed.

Lemma evolves_power_off_instances self t db :
  evolves db (power_off self t db).1 (power_off self t db).2.
Proof.
  unfold _power_off_instances.
  assert (H : forall l st, evolves db st.1 st.2 ->
    evolves db (foldl (power_off_instance recalculate_runs t) st l).1
      (foldl (power_off_instance recalculate_runs t) st l).2).
  { induction l as [|x l IH]; intros st Hst; simpl; [done|].
    apply IH. by apply evolves_power_off_instance. }
  apply H. apply evolves_refl.
Qed.

Lemma evolves_save_account a db eff : evolves db (save_account a db) eff.
Proof. by apply evolves_same. Qed.

Lemma evolves_disable self message flag now db :
  evolves db
    (disable recalculate_runs cloud_disable self message flag now db).1.2
    (disable recalculate_runs cloud_disable self message flag now db).2.
Proof.
  unfold disable.
  assert (Hpower : forall a d,
    evolves d
      (if flag then power_off a now d else (d, [])).1
      (if flag then power_off a now d else (d, [])).2).
  { intros a d. destruct flag; [apply evolves_power_off_instances|].
    apply evolves_refl. }
  destruct (is_enabled self).
  - specialize (Hpower (set_enabled false (enabled_at self) self)
                  (save_account (set_enabled false (enabled_at self) self) db)).
    destruct (if flag then _ else _) as [db2 eff2]. simpl in *.
    eapply (evolves_trans _ _ _ [_] _); [apply evolves_save_account|].
    eapply evolves_trans; [exact Hpower|]. apply evolves_keeps, disable_keeps.
  - specialize (Hpower self db).
    destruct (if flag then _ else _) as [db2 eff2]. simpl in *.
    eapply evolves_trans; [exact Hpower|]. apply evolves_keeps, disable_keeps.
Qed.

Lemma evolves_enable self now db :
  evolves db (enable cloud_enable self now db).1.1.2
    (enable cloud_enable self now db).1.2.
Proof.
  unfold enable.
  destruct (is_enabled self); simpl;
    destruct (cloud_enable _ _) as [e|db2] eqn:E; simpl; try apply evolves_refl.
  - destruct (enable_keeps _ _ _ E) as (? & ? & ?). by apply evolves_same.
  - destruct (enable_keeps _ _ _ E) as (? & ? & ?). by apply evolves_same.
Qed.

Lemma evolves_delete_cloud_account self now db :
  evolves db
    (delete_cloud_account recalculate_runs cloud_disable self now db).1
    (delete_cloud_account recalculate_runs cloud_disable self now db).2.
Proof.
  unfold delete_cloud_account, cloud_account_pre_delete_callback.
  pose proof (evolves_disable self "" false now db) as Hd.
  pose proof (disable_quiet self "" now db) as Hq.
  destruct (disable _ _ self "" false now db) as [[? db1] eff1]. simpl in Hd, Hq.
  destruct (post_delete_all_spec db (instance_set self db)
              (delete_instance_rows (inst_id <$> instance_set self db) db1, eff1))
    as [Hev _]; [|done|].
  - simpl. eapply evolves_finally; [exact Hd|apply evolves_delete_instance_rows].
  - destruct (post_delete_all _ _) as [db3 eff3]. simpl in *.
    eapply evolves_finally; [exact Hev|]. by apply evolves_same.
Qed.

Lemma evolves_run_op op db : evolves db (run op db).1 (run op db).2.
Proof.
  destruct op as [self now|self message flag now|self t|instance|self now]; simpl.
  - pose proof (evolves_enable self now db) as H.
    by destruct (enable cloud_enable self now db) as [[[? ?] ?] ?].
  - pose proof (evolves_disable self message flag now db) as H.
    by destruct (disable _ _ self message flag now db) as [[? ?] ?].
  - apply evolves_power_off_instances.
  - apply evolves_delete_instance.
  - apply evolves_delete_cloud_account.
Qed.

(** C4. Every event an operation of models.py appends, that is every row
    of the event table after the operation that was not there before, was
    created by the operation and handed at once to [recalculate_runs],
    which works on the instance of the event, before the operation
    returns: the two calls are neighbours among its effects. *)
Theorem appends_are_reconciled op db e :
  e ∈ instance_events
        (run_op recalculate_runs cloud_enable cloud_disable op db).1 ->
  e ∉ instance_events db ->
  exists k,
    (run_op recalculate_runs cloud_enable cloud_disable op db).2 !! k
    = Some (CreatedEvent e)
    /\ (run_op recalculate_runs cloud_enable cloud_disable op db).2 !! S k
       = Some (RecalculatedRuns e).
Proof.
  intros Hafter Hbefore.
  destruct (evolves_run_op op db) as (Ha & _).
  destruct (Ha e Hafter) as [Hold|(_ & _ & _ & Hcreated)]; [done|].
  apply list_elem_of_lookup_1 in Hcreated as [k Hk].
  exists k. split; [done|]. by apply run_op_reconciled.
Qed.

(** C5. No operation of models.py changes a row of the event table: an
    event found afterwards under the key of an earlier event is that
    event, field for field; and an event that is gone afterwards pointed
    at an instance that was in the instance table and is gone with it. *)
Theorem events_immutable op db :
  event_table_ok db ->
  (forall e e',
     e ∈ instance_events db ->
     e' ∈ instance_events
            (run_op recalculate_runs cloud_enable cloud_disable op db).1 ->
     ev_id e' = ev_id e -> e' = e)
  /\ (forall e,
       e ∈ instance_events db ->
       e ∉ instance_events
             (run_op recalculate_runs cloud_enable cloud_disable op db).1 ->
       ev_instance e ∈ inst_id <$> instances db
       /\ ev_instance e
          ∉ inst_id <$> instances
              (run_op recalculate_runs cloud_enable cloud_disable op db).1).
Proof.
  intros (Hnd & Hlt & Hfk).
  destruct (evolves_run_op op db) as (Ha & Hb & _ & _).
  rewrite Forall_forall in Hlt, Hfk. split.
  - intros e e' He He' Hid. destruct (Ha e' He') as [Hold|(Hfresh & _)].
    + by apply (NoDup_fmap_eq ev_id (instance_events db)).
    + specialize (Hlt e He). lia.
  - intros e He Hgone. split; [by apply Hfk|].
    by destruct (Hb e He).
Qed.

(** C6. The operations of models.py keep the invariant of the event table:
    when every event has one of the three event types and carries
    attributes only on [power_on] or [attribute_change], the same holds of
    every event found after the operation. *)
Theorem event_types_and_attributes op db :
  Forall (fun e => event_ok e = true) (instance_events db) ->
  forall e,
    e ∈ instance_events
          (run_op recalculate_runs cloud_enable cloud_disable op db).1 ->
    (event_type e = "power_on" \/ event_type e = "power_off"
     \/ event_type e = "attribute_change")
    /\ (is_Some (attributes e) ->
        event_type e = "power_on" \/ event_type e = "attribute_change").
Proof.
  intros Hall e He. rewrite Forall_forall in Hall.
  destruct (evolves_run_op op db) as (Ha & _).
  destruct (Ha e He) as [Hold|(_ & Hty & Hattr & _)].
  - apply event_ok_spec. by apply Hall.
  - split; [right; by left|]. rewrite Hattr. by intros [? ?].
Qed.

End OperationFacts.

Lemma sample_collaborators_keep :
  (forall e, keeps_events (sample_recalculate_runs e))
  /\ (forall a, keeps_events_on_return (sample_cloud_enable a))
  /\ (forall a, keeps_events (sample_cloud_disable a)).
Proof.
  split; [|split].
  - intros e db. by repeat split.
  - intros a db db'. unfold sample_cloud_enable.
    destruct (bool_decide (ca_id a = 1%nat)); [|discriminate].
    intros [= <-]. by repeat split.
  - intros a db. by repeat split.
Defined.

Lemma sample_db_ok : event_table_ok sample_db.
Proof.
  split; [|split].
  - apply (bool_decide_unpack _). vm_compute. exact I.
  - apply (bool_decide_unpack _). vm_compute. exact I.
  - apply (bool_decide_unpack _). vm_compute. exact I.
Defined.

Lemma appends_are_reconciled_witness :
  let r := sample_run_op (OpDisable sample_account "" true 100) sample_db in
  let e := {| ev_id := 6; ev_instance := 3; event_type := "power_off";
              occurred_at := 100;
              content_object := {| ce_class := "AwsInstanceEvent"; ce_id := 6;
                                   ce_attributes := None |} |} in
  (e ∈ instance_events r.1)
  /\ (e ∉ instance_events sample_db)
  /\ exists k, r.2 !! k = Some (CreatedEvent e)
               /\ r.2 !! S k = Some (RecalculatedRuns e).
Proof.
  intros r e.
  assert (Hafter : e ∈ instance_events r.1).
  { apply (bool_decide_unpack _). vm_compute. exact I. }
  assert (Hbefore : e ∉ instance_events sample_db).
  { apply (bool_decide_unpack _). vm_compute. exact I. }
  split; [exact Hafter|]. split; [exact Hbefore|].
  destruct sample_collaborators_keep as (H1 & H2 & H3).
  exact (appends_are_reconciled sample_recalculate_runs sample_cloud_enable
           sample_cloud_disable H1 H2 H3
           (OpDisable sample_account "" true 100) sample_db e Hafter Hbefore).
Defined.

Lemma events_immutable_witness :
  let db' := (sample_run_op (OpDeleteInstance (sample_instance 3 8)) sample_db).1 in
  event_table_ok sample_db
  /\ (forall e e', e ∈ instance_events sample_db -> e' ∈ instance_events db' ->
        ev_id e' = ev_id e -> e' = e)
  /\ (forall e, e ∈ instance_events sample_db -> e ∉ instance_events db' ->
        ev_instance e ∈ inst_id <$> instances sample_db
        /\ ev_instance e ∉ inst_id <$> instances db').
Proof.
  split; [exact sample_db_ok|].
  destruct sample_collaborators_keep as (H1 & H2 & H3).
  exact (events_immutable sample_recalculate_runs sample_cloud_enable
           sample_cloud_disable H1 H2 H3
           (OpDeleteInstance (sample_instance 3 8)) sample_db sample_db_ok).
Defined.

Lemma event_types_and_attributes_witness :
  let db' := (sample_run_op (OpDisable sample_account "" true 100) sample_db).1 in
  Forall (fun e => event_ok e = true) (instance_events sample_db)
  /\ (forall e, e ∈ instance_events db' ->
        (event_type e = "power_on" \/ event_type e = "power_off"
         \/ event_type e = "attribute_change")
        /\ (is_Some (attributes e) ->
            event_type e = "power_on" \/ event_type e = "attribute_change")).
Proof.
  assert (Hok : Forall (fun e => event_ok e = true) (instance_events sample_db)).
  { apply (bool_decide_unpack _). vm_compute. exact I. }
  split; [exact Hok|].
  destruct sample_collaborators_keep as (H1 & H2 & H3).
  exact (event_types_and_attributes sample_recalculate_runs sample_cloud_enable
           sample_cloud_disable H1 H2 H3
           (OpDisable sample_account "" true 100) sample_db Hok).
Defined.

Lemma filter_none {A : Type} (P : A -> Prop) `{forall x, Decision (P x)} (l : list A) :
  (forall x, x ∈ l -> ~ P x) -> filter P l = [].
Proof.
  induction l as [|a l IH]; intros Hall; [done|].
  rewrite filter_cons_False.
  - apply IH. intros x Hx. apply Hall. by apply elem_of_cons; right.
  - apply Hall. by apply elem_of_cons; left.
Qed.

Lemma filter_all {A : Type} (P : A -> Prop) `{forall x, Decision (P x)} (l : list A) :
  (forall x, x ∈ l -> P x) -> filter P l = l.
Proof.
  induction l as [|a l IH]; intros Hall; [done|].
  rewrite filter_cons_True.
  - f_equal. apply IH. intros x Hx. apply Hall. by apply elem_of_cons; right.
  - apply Hall. by apply elem_of_cons; left.
Qed.

Lemma find_image_deleted m (l : list MachineImage) :
  find (fun x => bool_decide (mi_id x = m)) (filter (fun x => mi_id x <> m) l) = None.
Proof.
  induction l as [|a l IH]; [done|].
  destruct (decide (mi_id a = m)) as [Heq|Hne].
  - by rewrite filter_cons_False by (intros ?; done).
  - rewrite filter_cons_True by done. simpl.
    by rewrite bool_decide_eq_false_2.
Qed.

Lemma image_used_elsewhere_spec instance m db :
  image_used_elsewhere instance m db = true <->
  exists x, x ∈ instances db /\ machine_image x = Some m
            /\ inst_id x <> inst_id instance.
Proof.
  unfold image_used_elsewhere. rewrite bool_decide_eq_true, Exists_exists.
  done.
Qed.

Lemma image_used_elsewhere_after_cascade instance m db :
  image_used_elsewhere instance m (delete_instance_rows [inst_id instance] db)
  = image_used_elsewhere instance m db.
Proof.
  apply eq_true_iff_eq. rewrite !image_used_elsewhere_spec. simpl.
  split; intros (x & Hx & Hm & Hne); exists x; repeat split; try done.
  - by apply list_elem_of_filter in Hx as [_ Hx].
  - apply list_elem_of_filter. split; [|done].
    by rewrite list_elem_of_singleton.
Qed.

(** After the cascade of an instance, its [post_delete] hook takes no
    event away: the image it may delete has no instance left. *)
Lemma post_delete_callback_events instance db :
  let db1 := delete_instance_rows [inst_id instance] db in
  instance_events (instance_post_delete_callback instance db1).1
  = instance_events db1
  /\ instances (instance_post_delete_callback instance db1).1 = instances db1.
Proof.
  intros db1. unfold instance_post_delete_callback.
  destruct (machine_image instance) as [m|]; [|done].
  destruct (find_image m db1); [|done].
  destruct (image_used_elsewhere instance m db1) eqn:Hused; [done|].
  assert (Hnone : filter (fun x => machine_image x = Some m) (instances db1) = []).
  { apply filter_none. intros x Hx Hm.
    assert (image_used_elsewhere instance m db1 = true); [|congruence].
    apply image_used_elsewhere_spec. exists x. repeat split; try done.
    subst db1. simpl in Hx. apply list_elem_of_filter in Hx as [Hx _].
    by rewrite list_elem_of_singleton in Hx. }
  unfold delete_machine_image. rewrite Hnone. simpl.
  split; apply filter_all; intros x _; apply not_elem_of_nil.
Qed.

(** C7, as the code has it. Deleting an instance takes the instance and
    its events away and keeps every other event; the [post_delete] hook
    then deletes the machine image of the instance when no other instance
    uses it, and keeps the image when another instance does. *)
Theorem delete_instance_cascade instance db :
  (inst_id instance ∉ inst_id <$> instances (delete_instance instance db).1)
  /\ (forall e, e ∈ instance_events (delete_instance instance db).1 <->
        e ∈ instance_events db /\ ev_instance e <> inst_id instance)
  /\ (forall m, machine_image instance = Some m ->
        ((exists x, x ∈ instances db /\ machine_image x = Some m
                    /\ inst_id x <> inst_id instance) ->
         find_image m (delete_instance instance db).1 = find_image m db)
        /\ (~ (exists x, x ∈ instances db /\ machine_image x = Some m
                        /\ inst_id x <> inst_id instance) ->
            find_image m (delete_instance instance db).1 = None)).
Proof.
  unfold delete_instance.
  destruct (post_delete_callback_events instance db) as [Hev Hinst].
  split; [|split].
  - rewrite Hinst. simpl. intros Hin.
    apply list_elem_of_fmap in Hin as (x & Hx & Hin).
    apply list_elem_of_filter in Hin as [Hout _].
    apply Hout. rewrite Hx. by apply list_elem_of_singleton.
  - intros e. rewrite Hev. simpl. rewrite list_elem_of_filter.
    rewrite list_elem_of_singleton. tauto.
  - intros m Hm. unfold instance_post_delete_callback. rewrite Hm.
    rewrite image_used_elsewhere_after_cascade.
    change (find_image m (delete_instance_rows [inst_id instance] db))
      with (find_image m db).
    split.
    + intros Hused%image_used_elsewhere_spec. rewrite Hused.
      destruct (find_image m db) eqn:Hfind; exact Hfind.
    + intros Hfree. destruct (find_image m db) eqn:Hfind; [|exact Hfind].
      destruct (image_used_elsewhere instance m db) eqn:Hused.
      * by apply image_used_elsewhere_spec in Hused.
      * apply find_image_deleted.
Qed.

(** The claim as the design words it fails where two instances share an
    image: instance 1 is deleted, image 7 is its image, and image 7 stays
    because instance 2 uses it. *)
Lemma delete_instance_keeps_shared_image :
  let db' := (delete_instance (sample_instance 1 7) sample_db).1 in
  machine_image (sample_instance 1 7) = Some 7%nat
  /\ (1%nat ∈ inst_id <$> instances sample_db)
  /\ (1%nat ∉ inst_id <$> instances db')
  /\ find_image 7 db' = Some (sample_image 7).
Proof.
  repeat split.
  - apply (bool_decide_unpack _). vm_compute. exact I.
  - apply (bool_decide_unpack _). vm_compute. exact I.
Qed.

End ModelsProperties.

(** *** The catalog refresh *)

Section MaintenanceProperties.

Import Maintenance.

Example sample_fetch :
  let r := _fetch_ec2_instance_type_definitions float_of_decimal int_of_digits
             sample_pages in
  instances r.1
  = [ ("t2.micro", {| memory := 1%float; vcpu := 1 |});
      ("r5.large", {| memory := 1952.5%float; vcpu := 2 |}) ]
  /\ fetch_log r.1
     = [ LogInfo "Getting AWS EC2 instance type information.";
         LogFetchError "x1.odd" (Some "NA") (Some "4") ]
  /\ r.2 = None.
Proof. vm_compute. repeat split. Qed.

Lemma for_each_invariant {S A : Type} (body : S -> A -> S * option Exn)
    (P : S -> Prop) (l : list A) :
  (forall st x, x ∈ l -> P st -> P (body st x).1) ->
  forall st, P st -> P (for_each body st l).1.
Proof.
  induction l as [|x l IH]; intros Hbody st Hst; simpl; [done|].
  pose proof (Hbody st x ltac:(by apply elem_of_cons; left) Hst) as Hx.
  destruct (body st x) as [st' [e|]]; simpl in *; [done|].
  apply IH; [|done]. intros st0 y Hy. apply Hbody. by apply elem_of_cons; right.
Qed.

Lemma for_each_concat {S A : Type} (body : S -> A -> S * option Exn) :
  forall (ls : list (list A)) st,
    for_each (for_each body) st ls = for_each body st (concat ls).
Proof.
  assert (Happ : forall (l1 l2 : list A) st,
    for_each body st (l1 ++ l2)
    = match for_each body st l1 with
      | (st', None) => for_each body st' l2
      | (st', Some e) => (st', Some e)
      end).
  { induction l1 as [|x l1 IH]; intros l2 st; simpl; [done|].
    destruct (body st x) as [st' [e|]]; [done|]. apply IH. }
  induction ls as [|l ls IH]; intros st; simpl; [done|].
  rewrite Happ. destruct (for_each body st l) as [st' [e|]]; [done|]. apply IH.
Qed.

Section RefreshFacts.

Variable py_float : string -> option float.
Variable py_int : string -> option Z.
Variable db_fault : gmap string InstanceDefinition -> string -> option Exn.

Abbreviation fetch := (_fetch_ec2_instance_type_definitions py_float py_int).
Abbreviation save := (_save_ec2_instance_type_definitions db_fault).
Abbreviation repopulate :=
  (repopulate_ec2_instance_mapping py_float py_int db_fault).

Lemma save_definition_store store log name attributes :
  (save_definition db_fault (store, log) (name, attributes)).1.1 = store
  \/ (store !! name = None
      /\ (save_definition db_fault (store, log) (name, attributes)).1.1
         = <[name := attributes]> store).
Proof.
  unfold save_definition, get_or_create. simpl.
  destruct (db_fault store name) as [e|].
  - left. by case_bool_decide.
  - destruct (store !! name); [by left|by right].
Qed.

(** What the save loop keeps true of the table it writes. *)
Lemma save_grows definitions store :
  let store' := (save definitions store).1.1 in
  (forall name d, store !! name = Some d -> store' !! name = Some d)
  /\ (forall name d, store !! name = None -> store' !! name = Some d ->
        (name, d) ∈ definitions).
Proof.
  unfold _save_ec2_instance_type_definitions.
  apply (for_each_invariant (save_definition db_fault)
    (fun st =>
       (forall name d, store !! name = Some d -> st.1 !! name = Some d)
       /\ (forall name d, store !! name = None -> st.1 !! name = Some d ->
             (name, d) ∈ definitions))).
  - intros [cur log] [name attributes] Hin [Hkeep Hnew].
    cbn [fst] in Hkeep, Hnew.
    destruct (save_definition_store cur log name attributes) as [->|[Hfree ->]];
      [done|].
    split.
    + intros n d Hn. specialize (Hkeep n d Hn).
      rewrite lookup_insert_ne; [done|]. congruence.
    + intros n d Hn. destruct (decide (name = n)) as [<-|Hne].
      * rewrite lookup_insert_eq. by intros [= <-].
      * rewrite lookup_insert_ne by done. by apply Hnew.
  - simpl. split; [done|]. intros name d Hnone Hsome. congruence.
Qed.

Lemma repopulate_store pages store :
  (repopulate pages store).1.1 = store
  \/ ((fetch pages).2 = None
      /\ (repopulate pages store).1.1
         = (save (instances (fetch pages).1) store).1.1).
Proof.
  unfold repopulate_ec2_instance_mapping, atomic, save_or_log.
  destruct (fetch pages) as [st [e|]]; [by left|]. simpl.
  destruct (save (instances st) store) as [[store' log] [e|]]; [by left|].
  by right.
Qed.

(** C8. The refresh never overwrites a definition: a name the table
    holds keeps its memory and vcpu through
    [_save_ec2_instance_type_definitions] and through
    [repopulate_ec2_instance_mapping], and a row found afterwards under a
    name the table did not hold is the definition fetched for that name. *)
Theorem refresh_never_overwrites pages definitions store :
  ((forall name d,
      store !! name = Some d ->
      (_save_ec2_instance_type_definitions db_fault definitions store).1.1
        !! name = Some d)
   /\ (forall name d,
         store !! name = None ->
         (_save_ec2_instance_type_definitions db_fault definitions store).1.1
           !! name = Some d ->
         (name, d) ∈ definitions))
  /\ ((forall name d,
        store !! name = Some d ->
        (repopulate_ec2_instance_mapping py_float py_int db_fault
           pages store).1.1 !! name = Some d)
      /\ (forall name d,
            store !! name = None ->
            (repopulate_ec2_instance_mapping py_float py_int db_fault
               pages store).1.1 !! name = Some d ->
            (name, d)
            ∈ instances
                (_fetch_ec2_instance_type_definitions py_float py_int pages).1)).
Proof.
  split; [apply save_grows|].
  destruct (repopulate_store pages store) as [->|[_ ->]].
  - split; [done|]. intros name d Hnone Hsome. congruence.
  - apply save_grows.
Qed.

(** C9. The refresh is atomic on failure: when saving a fetched
    definition raises, [repopulate_ec2_instance_mapping] raises the same
    exception and the table is the one it started from, whatever the save
    had written before the failure. *)
Theorem refresh_rolls_back pages store e :
  (_fetch_ec2_instance_type_definitions py_float py_int pages).2 = None ->
  (_save_ec2_instance_type_definitions db_fault
     (instances (_fetch_ec2_instance_type_definitions py_float py_int pages).1)
     store).2 = Some e ->
  (repopulate_ec2_instance_mapping py_float py_int db_fault pages store).1.1
  = store
  /\ (repopulate_ec2_instance_mapping py_float py_int db_fault pages store).2
     = Some e.
Proof.
  unfold repopulate_ec2_instance_mapping, atomic, save_or_log.
  destruct (fetch pages) as [st [e0|]]; simpl; [discriminate|]. intros _.
  destruct (save (instances st) store) as [[store' log] [e1|]]; simpl;
    [|discriminate].
  by intros [= ->].
Qed.

Abbreviation parsed := (parses py_float py_int).

Lemma fetch_entry_well_formed st entry :
  well_formed entry ->
  (fetch_entry py_float py_int st entry).2 = None
  /\ instances (fetch_entry py_float py_int st entry).1
     = store_entry py_float py_int (instances st) entry
  /\ fetch_log (fetch_entry py_float py_int st entry).1
     = fetch_log st ++ skipped py_float py_int entry.
Proof.
  destruct entry as [e|attrs]; [done|]. intros [[name Hname] [m Hm]].
  unfold fetch_entry, skipped, parses, store_entry, error_record, parse_entry,
    parse_memory, parse_vcpu, log_fetch_error.
  rewrite Hm, Hname.
  destruct (py_float _); simpl; rewrite ?Hname, ?Hm; [|done].
  destruct (attrs !! "vcpu") as [v|]; simpl; rewrite ?Hname, ?Hm;
    [destruct (py_int v); simpl; rewrite ?Hname, ?Hm|]; by rewrite ?app_nil_r.
Qed.

Lemma fetch_entries_well_formed : forall l st,
  Forall well_formed l ->
  (for_each (fetch_entry py_float py_int) st l).2 = None
  /\ instances (for_each (fetch_entry py_float py_int) st l).1
     = foldl (store_entry py_float py_int) (instances st) l
  /\ fetch_log (for_each (fetch_entry py_float py_int) st l).1
     = fetch_log st ++ (l ≫= skipped py_float py_int).
Proof.
  induction l as [|x l IH]; intros st Hwf; simpl.
  - by rewrite app_nil_r.
  - apply Forall_cons in Hwf as [Hx Hl].
    destruct (fetch_entry_well_formed st x Hx) as (Hnone & Hinst & Hlog).
    destruct (fetch_entry py_float py_int st x) as [st' r]. simpl in *.
    subst r. destruct (IH st' Hl) as (? & ? & ?).
    repeat split; [done|congruence|]. rewrite app_assoc, <- Hlog. done.
Qed.

Lemma store_entry_filter : forall l d,
  foldl (store_entry py_float py_int) d (filter (fun x => parsed x = true) l)
  = foldl (store_entry py_float py_int) d l.
Proof.
  induction l as [|x l IH]; intros d; [done|].
  destruct (parsed x) eqn:Hx.
  - rewrite filter_cons_True by done. simpl. apply IH.
  - rewrite filter_cons_False by congruence. simpl. rewrite IH. f_equal.
    unfold parses in Hx. unfold store_entry. destruct x as [e|attrs]; [done|].
    by destruct (parse_entry py_float py_int attrs) as [e|[name def]].
Qed.

Lemma well_formed_fails_to_parse entry :
  well_formed entry -> fails_to_parse py_float py_int entry ->
  parsed entry = false /\ error_record entry <> [].
Proof.
  destruct entry as [e|attrs]; [done|]. intros [[name Hname] [m Hm]] Hfail.
  unfold parses, error_record, parse_entry, parse_memory, parse_vcpu.
  rewrite Hname, Hm. split; [|done].
  destruct Hfail as [(m' & Hm' & Hfloat)|(v & Hv & Hint)].
  - assert (m' = m) as -> by congruence. by rewrite Hfloat.
  - rewrite Hv, Hint. by destruct (py_float _).
Qed.

(** C10, as the code has it. When every entry of the price list decodes
    and carries [instanceType] and [memory], the fetch does not raise; it
    returns the definitions of the entries that parse, and logs the others.
    An entry whose memory or vcpu is refused by [float] or [int] is one of
    the others: it is left out of the definitions and its error record is
    in the log. *)
Theorem fetch_skips_unparsed pages :
  Forall well_formed (concat pages) ->
  (_fetch_ec2_instance_type_definitions py_float py_int pages).2 = None
  /\ instances (_fetch_ec2_instance_type_definitions py_float py_int pages).1
     = definitions_of py_float py_int
         (filter (fun entry => parses py_float py_int entry = true)
            (concat pages))
  /\ fetch_log (_fetch_ec2_instance_type_definitions py_float py_int pages).1
     = LogInfo "Getting AWS EC2 instance type information."
       :: (concat pages ≫= skipped py_float py_int)
  /\ (forall entry,
        entry ∈ concat pages ->
        fails_to_parse py_float py_int entry ->
        parses py_float py_int entry = false
        /\ error_record entry <> []
        /\ (forall r,
              r ∈ error_record entry ->
              r ∈ fetch_log
                    (_fetch_ec2_instance_type_definitions py_float py_int
                       pages).1)).
Proof.
  intros Hwf. unfold _fetch_ec2_instance_type_definitions.
  rewrite for_each_concat.
  destruct (fetch_entries_well_formed (concat pages)
              {| instances := []; instance_attr := None;
                 fetch_log := [LogInfo "Getting AWS EC2 instance type information."] |}
              Hwf) as (Hnone & Hinst & Hlog).
  simpl in Hinst, Hlog.
  split; [done|]. split; [|split; [done|]].
  - rewrite Hinst. unfold definitions_of. by rewrite store_entry_filter.
  - intros entry Hin Hfail. rewrite Forall_forall in Hwf.
    destruct (well_formed_fails_to_parse entry (Hwf entry Hin) Hfail)
      as [Hparse Hrec].
    repeat split; [done|done|]. intros r Hr. rewrite Hlog.
    apply elem_of_cons. right. apply list_elem_of_bind.
    exists entry. split; [|done]. unfold skipped. by rewrite Hparse.
Qed.

End RefreshFacts.

Lemma refresh_never_overwrites_witness :
  let store' :=
    (repopulate_ec2_instance_mapping float_of_decimal int_of_digits no_db_fault
       sample_pages sample_store).1.1 in
  sample_store !! "t2.micro" = Some {| memory := 0.5%float; vcpu := 8 |}
  /\ store' !! "t2.micro" = Some {| memory := 0.5%float; vcpu := 8 |}
  /\ store' !! "r5.large" = Some {| memory := 1952.5%float; vcpu := 2 |}.
Proof.
  split; [vm_compute; reflexivity|]. split.
  - apply (refresh_never_overwrites float_of_decimal int_of_digits no_db_fault
             sample_pages [] sample_store).
    vm_compute; reflexivity.
  - vm_compute; reflexivity.
Defined.

Lemma refresh_rolls_back_witness :
  let defs := instances
    (_fetch_ec2_instance_type_definitions float_of_decimal int_of_digits
       sample_pages).1 in
  (_save_ec2_instance_type_definitions sample_db_fault defs ∅).1.1 !! "t2.micro"
  = Some {| memory := 1%float; vcpu := 1 |}
  /\ (_save_ec2_instance_type_definitions sample_db_fault defs ∅).2
     = Some IntegrityError
  /\ (repopulate_ec2_instance_mapping float_of_decimal int_of_digits
        sample_db_fault sample_pages ∅).1.1 = ∅
  /\ (repopulate_ec2_instance_mapping float_of_decimal int_of_digits
        sample_db_fault sample_pages ∅).2 = Some IntegrityError.
Proof.
  split; [vm_compute; reflexivity|]. split; [vm_compute; reflexivity|].
  apply (refresh_rolls_back float_of_decimal int_of_digits sample_db_fault
           sample_pages ∅ IntegrityError); vm_compute; reflexivity.
Defined.

Lemma fetch_skips_unparsed_witness :
  let r := _fetch_ec2_instance_type_definitions float_of_decimal int_of_digits
             sample_pages in
  Forall well_formed (concat sample_pages)
  /\ r.2 = None
  /\ instances r.1
     = [ ("t2.micro", {| memory := 1%float; vcpu := 1 |});
         ("r5.large", {| memory := 1952.5%float; vcpu := 2 |}) ]
  /\ LogFetchError "x1.odd" (Some "NA") (Some "4") ∈ fetch_log r.1.
Proof.
  assert (Hwf : Forall well_formed (concat sample_pages)).
  { simpl.
    repeat (apply Forall_cons_2;
            [split; eexists; vm_compute; reflexivity|]).
    apply Forall_nil_2. }
  destruct (fetch_skips_unparsed float_of_decimal int_of_digits sample_pages Hwf)
    as (Hnone & Hdefs & Hlog & Hskip).
  split; [exact Hwf|]. split; [exact Hnone|]. split.
  - rewrite Hdefs. vm_compute. reflexivity.
  - destruct (Hskip (sample_entry "x1.odd" "NA" "4")) as (_ & _ & Hin).
    + simpl. apply elem_of_cons. right. apply elem_of_cons. by left.
    + left. exists "NA". split; vm_compute; reflexivity.
    + apply Hin. vm_compute. apply elem_of_cons. by left.
Defined.

(** The claim as worded fails on entries the loop cannot even log or
    slice: without [instanceType] the handler raises [KeyError], without
    [memory] the slice raises [TypeError], and the definitions parsed
    before are not returned. *)
Lemma fetch_raises_on_irregular_entries :
  fails_to_parse float_of_decimal int_of_digits entry_without_type
  /\ (_fetch_ec2_instance_type_definitions float_of_decimal int_of_digits
        [[sample_entry "t2.micro" "1 GiB" "1"; entry_without_type]]).2
     = Some KeyError
  /\ fails_to_parse float_of_decimal int_of_digits entry_without_memory
  /\ (_fetch_ec2_instance_type_definitions float_of_decimal int_of_digits
        [[sample_entry "t2.micro" "1 GiB" "1"; entry_without_memory]]).2
     = Some TypeError.
Proof.
  split; [left; exists "NA"; split; vm_compute; reflexivity|].
  split; [vm_compute; reflexivity|].
  split; [right; exists "two"; split; vm_compute; reflexivity|].
  vm_compute; reflexivity.
Qed.

End MaintenanceProperties.

(** *** More of the data model *)

Section ModelsOperations.

Import Models.

Lemma latest_spec l :
  match latest l with
  | None => l = []
  | Some e => e ∈ l /\ forall e', e' ∈ l -> occurred_at e' <= occurred_at e
  end.
Proof.
  induction l as [|x l IH]; simpl; [done|].
  destruct (latest l) as [e'|].
  - destruct IH as [Hin Hmax].
    destruct (Z.leb_spec (occurred_at e') (occurred_at x)).
    + split; [by apply elem_of_cons; left|].
      intros y [->|Hy]%elem_of_cons; [lia|]. specialize (Hmax y Hy). lia.
    + split; [by apply elem_of_cons; right|].
      intros y [->|Hy]%elem_of_cons; [lia|]. by apply Hmax.
  - subst l. split; [by apply elem_of_cons; left|].
    intros y [->|Hy]%elem_of_cons; [lia|]. by apply elem_of_nil in Hy.
Qed.

(** X3. [last_event] is the instance's event with the greatest [occurred_at],
    whatever the order of insertion, and there is none only when the
    instance has no event at all. *)
Theorem last_event_is_greatest inst db :
  (last_event inst db = None <->
   forall e, e ∈ instance_events db -> ev_instance e <> inst_id inst)
  /\ (forall e, last_event inst db = Some e ->
        e ∈ instance_events db
        /\ ev_instance e = inst_id inst
        /\ forall e', e' ∈ instance_events db ->
                      ev_instance e' = inst_id inst ->
                      occurred_at e' <= occurred_at e).
Proof.
  unfold last_event.
  pose proof (latest_spec
    (filter (fun e => ev_instance e = inst_id inst) (instance_events db))) as H.
  destruct (latest _) as [e|].
  - destruct H as [Hin Hmax]. apply list_elem_of_filter in Hin as [Hi Hin].
    split.
    + split; [done|]. intros Hnone. by destruct (Hnone e Hin).
    + intros e0 [= <-]. repeat split; [done|done|].
      intros e' He' Hi'. apply Hmax. by apply list_elem_of_filter.
  - split; [|done]. split; [|done]. intros _ e He Hi.
    assert (Hf : e ∈ filter (fun e => ev_instance e = inst_id inst)
                       (instance_events db)) by by apply list_elem_of_filter.
    rewrite H in Hf. by apply elem_of_nil in Hf.
Qed.

Section PowerOff.

Variable recalculate_runs : InstanceEvent -> Db -> Db.
Hypothesis recalculate_keeps : forall e, keeps_events (recalculate_runs e).

Lemma last_event_after_others inst db cur news :
  instance_events cur = instance_events db ++ news ->
  (forall e, e ∈ news -> ev_instance e <> inst_id inst) ->
  last_event inst cur = last_event inst db.
Proof.
  intros Hev Hother. unfold last_event. rewrite Hev, filter_app.
  rewrite (filter_none _ news); [by rewrite app_nil_r|].
  intros e He Hi. by apply (Hother e).
Qed.

Lemma power_off_fold db t : forall l st news1,
  NoDup (inst_id <$> l) ->
  instance_events st.1 = instance_events db ++ news1 ->
  instances st.1 = instances db ->
  (forall e, e ∈ news1 -> ev_instance e ∉ inst_id <$> l) ->
  exists news2,
    instance_events (foldl (power_off_instance recalculate_runs t) st l).1
    = instance_events db ++ news1 ++ news2
    /\ instances (foldl (power_off_instance recalculate_runs t) st l).1
       = instances db
    /\ Forall2 (powered_off_by db t)
         (filter (fun x => needs_power_off db x = true) l) news2
    /\ ev_id <$> news2 = seq (next_event_id st.1) (length news2).
Proof.
  induction l as [|x l IH]; intros [cur eff] news1 Hnd Hev Hinst Hfresh; simpl in *.
  - exists []. by rewrite !app_nil_r.
  - apply NoDup_cons in Hnd as [Hx Hnd].
    assert (Hlast : last_event x cur = last_event x db).
    { apply (last_event_after_others x db cur news1 Hev).
      intros e He Hi. apply (Hfresh e He). rewrite Hi.
      apply elem_of_cons. by left. }
    assert (Hrest : forall e, e ∈ news1 -> ev_instance e ∉ inst_id <$> l).
    { intros e He Hin. apply (Hfresh e He). apply elem_of_cons. by right. }
    unfold needs_power_off at 1. rewrite Hlast.
    destruct (last_event x db) as [last|] eqn:Hdb.
    + case_bool_decide as Hty.
      * rewrite filter_cons_True
          by (unfold needs_power_off; rewrite Hdb; by apply bool_decide_eq_true).
        set (content := {| ce_class := ce_class (content_object last);
                           ce_id := next_content_id cur;
                           ce_attributes := None |}).
        set (e := {| ev_id := next_event_id cur; ev_instance := inst_id x;
                     event_type := TYPE_power_off; occurred_at := t;
                     content_object := content |}).
        simpl.
        match goal with
        | |- context [foldl _ (recalculate_runs e ?d, ?f) l] =>
            destruct (recalculate_keeps e d) as (Hk1 & Hk2 & Hk3);
            destruct (IH (recalculate_runs e d, f) (news1 ++ [e]))
              as (news2 & H1 & H2 & H3 & H4)
        end; simpl.
        -- done.
        -- rewrite Hk1. simpl. by rewrite Hev, app_assoc.
        -- by rewrite Hk2.
        -- intros e' [He'|He']%elem_of_app; [by apply Hrest|].
           apply list_elem_of_singleton in He' as ->. done.
        -- exists (e :: news2). simpl in *. repeat split.
           ++ rewrite H1. by rewrite <- !app_assoc.
           ++ done.
           ++ constructor; [|done]. repeat split; try done. by exists last.
           ++ f_equal. rewrite <- Hk3. exact H4.
      * rewrite filter_cons_False
          by (unfold needs_power_off; rewrite Hdb;
              rewrite bool_decide_eq_false_2 by (intros ?; done); congruence).
        by apply (IH (cur, eff) news1).
    + rewrite filter_cons_False
        by (unfold needs_power_off; rewrite Hdb; done).
      by apply (IH (cur, eff) news1).
Qed.

Lemma instance_set_NoDup self db :
  NoDup (inst_id <$> instances db) -> NoDup (inst_id <$> instance_set self db).
Proof.
  unfold instance_set. induction (instances db) as [|x l IH]; simpl; [done|].
  intros [Hx Hnd]%NoDup_cons. destruct (decide (cloud_account x = ca_id self)).
  - rewrite filter_cons_True by done. simpl. apply NoDup_cons. split; [|auto].
    intros (y & Hy & Hin)%list_elem_of_fmap.
    apply list_elem_of_filter in Hin as [_ Hin].
    apply Hx. rewrite Hy. by apply list_elem_of_fmap_2.
  - rewrite filter_cons_False by done. auto.
Qed.

Lemma power_off_instances_events self t db :
  NoDup (inst_id <$> instances db) ->
  exists news,
    instance_events (_power_off_instances recalculate_runs self t db).1
    = instance_events db ++ news
    /\ instances (_power_off_instances recalculate_runs self t db).1
       = instances db
    /\ Forall2 (powered_off_by db t)
         (filter (fun x => needs_power_off db x = true) (instance_set self db))
         news
    /\ ev_id <$> news = seq (next_event_id db) (length news).
Proof.
  intros Hnd. unfold _power_off_instances.
  destruct (power_off_fold db t (instance_set self db) (db, []) [])
    as (news & H1 & H2 & H3 & H4); simpl.
  - by apply instance_set_NoDup.
  - by rewrite app_nil_r.
  - done.
  - intros e He. by apply elem_of_nil in He.
  - exists news. by repeat split.
Qed.

(** X1. [_power_off_instances] appends to the event table, and appends one
    event for each instance of the account whose last event is not a
    [power_off], in the order of the instances and under consecutive keys:
    a [power_off] at [power_off_time], without attributes, of the cloud
    class of that last event.  Instances without events, instances already
    powered off and instances of other accounts get none. *)
Theorem power_off_instances_marks_running self t db :
  NoDup (inst_id <$> instances db) ->
  exists news,
    instance_events (_power_off_instances recalculate_runs self t db).1
    = instance_events db ++ news
    /\ Forall2 (powered_off_by db t)
         (filter (fun x => needs_power_off db x = true) (instance_set self db))
         news
    /\ ev_id <$> news = seq (next_event_id db) (length news).
Proof.
  intros Hnd.
  destruct (power_off_instances_events self t db Hnd) as (news & ? & _ & ? & ?).
  by exists news.
Qed.

Lemma latest_app_later l1 l2 t :
  l2 <> [] ->
  (forall e, e ∈ l1 -> occurred_at e < t) ->
  (forall e, e ∈ l2 -> occurred_at e = t) ->
  exists e, latest (l1 ++ l2) = Some e /\ e ∈ l2.
Proof.
  intros Hne H1 H2. pose proof (latest_spec (l1 ++ l2)) as H.
  destruct (latest (l1 ++ l2)) as [e|].
  - destruct H as [Hin Hmax]. exists e. split; [done|].
    apply elem_of_app in Hin as [Hin|Hin]; [|done].
    destruct l2 as [|e2 l2]; [done|].
    assert (He2 : e2 ∈ e2 :: l2) by (apply elem_of_cons; by left).
    specialize (Hmax e2 ltac:(apply elem_of_app; by right)).
    specialize (H1 e Hin). specialize (H2 e2 He2). lia.
  - destruct l1, l2; done.
Qed.

Lemma powered_off_all db t l news :
  Forall2 (powered_off_by db t) l news ->
  (forall e, e ∈ news -> event_type e = TYPE_power_off /\ occurred_at e = t)
  /\ (forall x, x ∈ l -> exists e, e ∈ news /\ ev_instance e = inst_id x).
Proof.
  induction 1 as [|x e l news (Hi & Hty & Ht & _) _ [IH1 IH2]].
  - split; intros ? H; by apply elem_of_nil in H.
  - split.
    + intros e' [->|He']%elem_of_cons; [done|by apply IH1].
    + intros x' [->|Hx']%elem_of_cons.
      * exists e. split; [apply elem_of_cons; by left|done].
      * destruct (IH2 x' Hx') as (e' & ? & ?). exists e'.
        split; [apply elem_of_cons; by right|done].
Qed.

(** X2. Powering off is idempotent when [power_off_time] is later than every
    event recorded: after [_power_off_instances], the last event of every
    instance of the account that has events is a [power_off], so a second
    call, at whatever time, appends nothing. *)
Theorem power_off_instances_twice self t t' db :
  NoDup (inst_id <$> instances db) ->
  (forall e, e ∈ instance_events db -> occurred_at e < t) ->
  instance_events
    (_power_off_instances recalculate_runs self t'
       (_power_off_instances recalculate_runs self t db).1).1
  = instance_events (_power_off_instances recalculate_runs self t db).1.
Proof.
  intros Hnd Hearlier.
  destruct (power_off_instances_events self t db Hnd)
    as (news & Hev & Hinst & Hall & _).
  set (db1 := (_power_off_instances recalculate_runs self t db).1) in *.
  destruct (powered_off_all _ _ _ _ Hall) as [Hnews Hcover].
  destruct (power_off_instances_events self t' db1) as (news' & Hev' & _ & Hall' & _).
  { by rewrite Hinst. }
  assert (Hset : instance_set self db1 = instance_set self db)
    by (unfold instance_set; by rewrite Hinst).
  rewrite Hset in Hall'.
  rewrite (filter_none _ (instance_set self db)) in Hall'.
  { apply Forall2_nil_inv_l in Hall' as ->. by rewrite Hev', app_nil_r. }
  intros x Hx Hneeds. unfold needs_power_off, last_event in Hneeds.
  rewrite Hev, filter_app in Hneeds.
  destruct (filter (fun e => ev_instance e = inst_id x) news) as [|e0 l0] eqn:Hfx.
  - rewrite app_nil_r in Hneeds.
    destruct (Hcover x) as (e & He & Hi).
    { apply list_elem_of_filter. split; [|done]. exact Hneeds. }
    assert (Hin : e ∈ filter (fun e => ev_instance e = inst_id x) news)
      by by apply list_elem_of_filter.
    rewrite Hfx in Hin. by apply elem_of_nil in Hin.
  - destruct (latest_app_later
                (filter (fun e => ev_instance e = inst_id x) (instance_events db))
                (e0 :: l0) t) as (e & He & Hin); [done| | |].
    + intros e [_ He]%list_elem_of_filter. by apply Hearlier.
    + intros e He. rewrite <- Hfx in He.
      apply list_elem_of_filter in He as [_ He]. by apply Hnews.
    + rewrite He in Hneeds. rewrite <- Hfx in Hin.
      apply list_elem_of_filter in Hin as [_ Hin].
      destruct (Hnews e Hin) as [Hty _].
      by rewrite bool_decide_eq_false_2 in Hneeds by (intros ?; done).
Qed.

End PowerOff.

Lemma sample_instances_NoDup : NoDup (inst_id <$> instances sample_db).
Proof. apply (bool_decide_unpack _). vm_compute. exact I. Defined.

Lemma sample_recalculate_keeps : forall e, keeps_events (sample_recalculate_runs e).
Proof. intros e db. by repeat split. Defined.

Lemma power_off_instances_marks_running_witness :
  NoDup (inst_id <$> instances sample_db)
  /\ exists news,
       instance_events
         (_power_off_instances sample_recalculate_runs sample_account 100
            sample_db).1
       = instance_events sample_db ++ news
       /\ Forall2 (powered_off_by sample_db 100)
            (filter (fun x => needs_power_off sample_db x = true)
               (instance_set sample_account sample_db))
            news
       /\ ev_id <$> news = seq (next_event_id sample_db) (length news).
Proof.
  split; [exact sample_instances_NoDup|].
  exact (power_off_instances_marks_running sample_recalculate_runs
           sample_recalculate_keeps sample_account 100 sample_db
           sample_instances_NoDup).
Defined.

Lemma power_off_instances_twice_witness :
  NoDup (inst_id <$> instances sample_db)
  /\ (forall e, e ∈ instance_events sample_db -> occurred_at e < 100)
  /\ instance_events
       (_power_off_instances sample_recalculate_runs sample_account 200
          (_power_off_instances sample_recalculate_runs sample_account 100
             sample_db).1).1
     = instance_events
         (_power_off_instances sample_recalculate_runs sample_account 100
            sample_db).1.
Proof.
  assert (H : forall e, e ∈ instance_events sample_db -> occurred_at e < 100).
  { apply Forall_forall. apply (bool_decide_unpack _). vm_compute. exact I. }
  split; [exact sample_instances_NoDup|]. split; [exact H|].
  exact (power_off_instances_twice sample_recalculate_runs
           sample_recalculate_keeps sample_account 100 200 sample_db
           sample_instances_NoDup H).
Defined.

Lemma save_row_find a l :
  find (fun x => bool_decide (ca_id x = ca_id a)) (save_row a l) = Some a.
Proof.
  induction l as [|x l IH]; simpl.
  - by rewrite bool_decide_eq_true_2.
  - case_bool_decide as Hx; simpl.
    + by rewrite bool_decide_eq_true_2.
    + by rewrite bool_decide_eq_false_2.
Qed.

Lemma power_off_instances_accounts recalculate_runs self t db :
  (forall e, keeps_accounts (recalculate_runs e)) ->
  cloud_accounts (_power_off_instances recalculate_runs self t db).1
  = cloud_accounts db.
Proof.
  intros Hkeep. unfold _power_off_instances.
  assert (H : forall l st, cloud_accounts st.1 = cloud_accounts db ->
    cloud_accounts (foldl (power_off_instance recalculate_runs t) st l).1
    = cloud_accounts db).
  { induction l as [|x l IH]; intros [cur eff] Hst; simpl in *; [done|].
    apply IH. destruct (last_event x cur); [|done].
    case_bool_decide; [|done]. simpl. by rewrite Hkeep. }
  by apply H.
Qed.

(** X4. [disable] writes the account as disabled when the object was enabled,
    and writes nothing to the account table when the object was already
    disabled; either way its last effect is the notice to Sources that the
    application is unavailable, with the message given. *)
Theorem disable_stores_disabled recalculate_runs cloud_disable
    self message flag now db :
  (forall e, keeps_accounts (recalculate_runs e)) ->
  (forall a, keeps_accounts (cloud_disable a)) ->
  (is_enabled self = true ->
   find_account (ca_id self)
     (disable recalculate_runs cloud_disable self message flag now db).1.2
   = Some (set_enabled false (enabled_at self) self))
  /\ (is_enabled self = false ->
      cloud_accounts
        (disable recalculate_runs cloud_disable self message flag now db).1.2
      = cloud_accounts db)
  /\ last (disable recalculate_runs cloud_disable self message flag now db).2
     = Some (Notified (ca_user self) (platform_application_id self)
               "unavailable" message).
Proof.
  intros Hrecalc Hdisable. unfold disable, find_account.
  destruct (is_enabled self) eqn:Hen; destruct flag;
    try match goal with
    | |- context [_power_off_instances recalculate_runs ?a ?t ?d] =>
        pose proof (power_off_instances_accounts recalculate_runs a t d Hrecalc)
          as Hacc;
        destruct (_power_off_instances recalculate_runs a t d) as [db2 eff2]
    end; simpl in *; rewrite ?Hdisable, ?Hacc; simpl;
    (split; [intros; try done; apply (save_row_find
               (set_enabled false (enabled_at self) self))|]);
    (split; [intros; done|]);
    by rewrite ?last_cons, ?last_app.
Qed.


(** X6. A successful [enable] of a disabled account stores the account as
    enabled since [now], and tells Sources that the application is
    available; an account already enabled keeps its [enabled_at]. *)
Theorem enable_stores_enabled cloud_enable self now db :
  (forall a d d', cloud_enable a d = inr d' ->
                  cloud_accounts d' = cloud_accounts d) ->
  (enable cloud_enable self now db).2 = None ->
  (is_enabled self = false ->
   find_account (ca_id self) (enable cloud_enable self now db).1.1.2
   = Some (set_enabled true now self))
  /\ (is_enabled self = true ->
      (enable cloud_enable self now db).1.1.1 = self)
  /\ last (enable cloud_enable self now db).1.2
     = Some (Notified (ca_user self) (platform_application_id self)
               "available" "").
Proof.
  intros Hkeep. unfold enable, find_account.
  destruct (is_enabled self) eqn:Hen; simpl;
    destruct (cloud_enable _ _) as [e'|db2] eqn:E; simpl; try discriminate;
    intros _; apply Hkeep in E; rewrite ?E; simpl;
    repeat split; try done.
  intros _. apply (save_row_find (set_enabled true now self)).
Qed.

Lemma disable_stores_disabled_witness :
  let r := disable sample_recalculate_runs sample_cloud_disable sample_account
             "removed" true 100 sample_db in
  is_enabled sample_account = true
  /\ find_account 1 r.1.2 = Some (set_enabled false 0 sample_account)
  /\ last r.2 = Some (Notified 1 12 "unavailable" "removed").
Proof.
  destruct (disable_stores_disabled sample_recalculate_runs sample_cloud_disable
              sample_account "removed" true 100 sample_db)
    as (Hon & _ & Hlast).
  - intros e d. reflexivity.
  - intros a d. reflexivity.
  - split; [reflexivity|]. split; [exact (Hon eq_refl)|exact Hlast].
Defined.


Lemma enable_stores_enabled_witness :
  let self := set_enabled false 0 sample_account in
  let r := enable sample_cloud_enable self 50 sample_db in
  r.2 = None
  /\ find_account 1 r.1.1.2 = Some (set_enabled true 50 self)
  /\ last r.1.2 = Some (Notified 1 12 "available" "").
Proof.
  intros self.
  assert (H : (enable sample_cloud_enable self 50 sample_db).2 = None)
    by (vm_compute; reflexivity).
  destruct (enable_stores_enabled sample_cloud_enable self 50 sample_db)
    as (Hoff & _ & Hlast).
  - intros a d d'. unfold sample_cloud_enable.
    destruct (bool_decide (ca_id a = 1%nat)); [|discriminate].
    by intros [= <-].
  - exact H.
  - split; [exact H|]. split; [exact (Hoff eq_refl)|exact Hlast].
Defined.

(** The [post_delete] hook of an instance takes no event and no instance
    away when no row of the instance table has the key of the instance
    any more. *)
Lemma post_delete_callback_keeps instance db :
  (forall y, y ∈ instances db -> inst_id y <> inst_id instance) ->
  instance_events (instance_post_delete_callback instance db).1
  = instance_events db
  /\ instances (instance_post_delete_callback instance db).1 = instances db.
Proof.
  intros Hgone. unfold instance_post_delete_callback.
  destruct (machine_image instance) as [m|]; [|done].
  destruct (find_image m db); [|done].
  destruct (image_used_elsewhere instance m db) eqn:Hused; [done|].
  assert (Hnone : filter (fun x => machine_image x = Some m) (instances db) = []).
  { apply filter_none. intros x Hx Hm.
    assert (image_used_elsewhere instance m db = true); [|congruence].
    apply image_used_elsewhere_spec. exists x. repeat split; try done.
    by apply Hgone. }
  unfold delete_machine_image. rewrite Hnone. simpl.
  split; apply filter_all; intros x _; apply not_elem_of_nil.
Qed.

Lemma post_delete_all_keeps : forall l st,
  (forall x y, x ∈ l -> y ∈ instances st.1 -> inst_id y <> inst_id x) ->
  instance_events (post_delete_all l st).1 = instance_events st.1
  /\ instances (post_delete_all l st).1 = instances st.1.
Proof.
  unfold post_delete_all.
  induction l as [|x l IH]; intros [db eff] Hgone; simpl in *; [done|].
  destruct (post_delete_callback_keeps x db) as [He Hi].
  { intros y Hy. apply (Hgone x y); [apply elem_of_cons; by left|done]. }
  destruct (instance_post_delete_callback x db) as [db' eff']. simpl in *.
  destruct (IH (db', eff ++ eff')) as [He' Hi'].
  - simpl. rewrite Hi. intros x' y Hx' Hy.
    apply (Hgone x' y); [apply elem_of_cons; by right|done].
  - simpl in *. by rewrite He', Hi', He, Hi.
Qed.

Lemma find_account_deleted k (l : list CloudAccount) :
  find (fun a => bool_decide (ca_id a = k)) (filter (fun a => ca_id a <> k) l)
  = None.
Proof.
  induction l as [|a l IH]; [done|].
  destruct (decide (ca_id a = k)) as [Heq|Hne].
  - by rewrite filter_cons_False by (intros ?; done).
  - rewrite filter_cons_True by done. simpl.
    by rewrite bool_decide_eq_false_2.
Qed.

(** X7. Deleting a cloud account takes the account, its instances and their
    events away, keeps every other event, and creates no event on the way:
    the [pre_delete] hook disables the account without powering its
    instances off. *)
Theorem delete_cloud_account_cascade recalculate_runs cloud_disable
    self now db :
  (forall a, keeps_events (cloud_disable a)) ->
  (forall x,
     x ∈ instances
           (delete_cloud_account recalculate_runs cloud_disable self now db).1 ->
     cloud_account x <> ca_id self)
  /\ (forall e,
       e ∈ instance_events
             (delete_cloud_account recalculate_runs cloud_disable self now db).1
       <-> e ∈ instance_events db
           /\ ev_instance e ∉ inst_id <$> instance_set self db)
  /\ find_account (ca_id self)
       (delete_cloud_account recalculate_runs cloud_disable self now db).1
     = None
  /\ quiet (delete_cloud_account recalculate_runs cloud_disable self now db).2.
Proof.
  intros Hkeep. unfold delete_cloud_account, cloud_account_pre_delete_callback.
  assert (Hdis :
    instance_events
      (disable recalculate_runs cloud_disable self "" false now db).1.2
    = instance_events db
    /\ instances (disable recalculate_runs cloud_disable self "" false now db).1.2
       = instances db).
  { unfold disable. destruct (is_enabled self); simpl;
      match goal with
      | |- context [cloud_disable ?a ?d] =>
          destruct (Hkeep a d) as (-> & -> & _)
      end; done. }
  pose proof (disable_quiet recalculate_runs cloud_disable self "" now db) as Hq.
  destruct (disable _ _ self "" false now db) as [[self1 db1] eff1].
  simpl in Hdis, Hq. destruct Hdis as [Hev Hinst].
  set (ids := inst_id <$> instance_set self db).
  destruct (post_delete_all_keeps (instance_set self db)
              (delete_instance_rows ids db1, eff1)) as [He Hi].
  { simpl. intros x y Hx Hy Heq.
    apply list_elem_of_filter in Hy as [Hout _]. apply Hout.
    rewrite Heq. by apply list_elem_of_fmap_2. }
  destruct (post_delete_all_spec (delete_instance_rows ids db1)
              (instance_set self db) (delete_instance_rows ids db1, eff1))
    as [_ Hq']; [apply evolves_refl|done|].
  destruct (post_delete_all _ _) as [db3 eff3]. simpl in *.
  split; [|split; [|split]].
  - rewrite Hi, Hinst. intros x [Hout Hx]%list_elem_of_filter Hacc.
    apply Hout. apply list_elem_of_fmap_2. by apply list_elem_of_filter.
  - intros e. rewrite He, Hev, list_elem_of_filter. tauto.
  - apply find_account_deleted.
  - done.
Qed.

Lemma delete_cloud_account_cascade_witness :
  let r := delete_cloud_account sample_recalculate_runs sample_cloud_disable
             sample_account 100 sample_db in
  instances r.1 = [] /\ instance_events r.1 = [] /\ machine_images r.1 = []
  /\ find_account 1 r.1 = None /\ quiet r.2.
Proof.
  destruct (delete_cloud_account_cascade sample_recalculate_runs
              sample_cloud_disable sample_account 100 sample_db)
    as (_ & _ & Hacc & Hq).
  - intros a d. by repeat split.
  - split; [vm_compute; reflexivity|]. split; [vm_compute; reflexivity|].
    split; [vm_compute; reflexivity|]. split; [exact Hacc|exact Hq].
Defined.

Lemma references_ok_delete_instance_rows ids db :
  references_ok db -> references_ok (delete_instance_rows ids db).
Proof.
  intros (He & Hr & Hi & Hs).
  rewrite Forall_forall in He. rewrite Forall_forall in Hr.
  rewrite Forall_forall in Hi.
  assert (Hkept : forall k, k ∈ inst_id <$> instances db -> k ∉ ids ->
    k ∈ inst_id <$> filter (fun x => inst_id x ∉ ids) (instances db)).
  { intros k (x & -> & Hx)%list_elem_of_fmap Hk.
    apply list_elem_of_fmap_2. by apply list_elem_of_filter. }
  split; [|split; [|split]]; simpl; try done.
  - apply Forall_forall. intros e [Hout Hin]%list_elem_of_filter.
    apply Hkept; [by apply He|done].
  - apply Forall_forall. intros r [Hout Hin]%list_elem_of_filter.
    destruct (Hr r Hin) as [Hrun Himg]. split; [by apply Hkept|done].
  - apply Forall_forall. intros x [_ Hin]%list_elem_of_filter. by apply Hi.
Qed.

Lemma references_ok_delete_machine_image m db :
  references_ok db -> references_ok (delete_machine_image m db).
Proof.
  intros Hok. unfold delete_machine_image.
  set (ids := inst_id <$> filter (fun x => machine_image x = Some m) (instances db)).
  pose proof (references_ok_delete_instance_rows ids db Hok) as (He & Hr & Hi & Hs).
  rewrite Forall_forall in Hr. rewrite Forall_forall in Hi.
  rewrite Forall_forall in Hs.
  assert (Hkept : forall k, k ∈ mi_id <$> machine_images db -> k <> m ->
    k ∈ mi_id <$> filter (fun x => mi_id x <> m) (machine_images db)).
  { intros k (x & -> & Hx)%list_elem_of_fmap Hk.
    apply list_elem_of_fmap_2. by apply list_elem_of_filter. }
  split; [|split; [|split]]; simpl in *; try done.
  - apply Forall_forall. intros r [Hne Hin]%list_elem_of_filter.
    destruct (Hr r Hin) as [Hrun Himg]. split; [done|].
    intros m' Hm'. apply Hkept; [by apply Himg|]. congruence.
  - apply Forall_forall. intros x Hx. intros m' Hm'.
    apply Hkept; [by apply (Hi x Hx)|]. intros ->.
    apply list_elem_of_filter in Hx as [Hout Hx]. apply Hout.
    apply list_elem_of_fmap_2. by apply list_elem_of_filter.
  - apply Forall_forall. intros x [Hne Hin]%list_elem_of_filter.
    apply Hkept; [by apply Hs|done].
Qed.

(** X8. Deleting an instance leaves no dangling reference: when every event,
    run, instance and inspection start pointed at an existing row before,
    the same holds after the cascade and the [post_delete] hook, whether or
    not the hook deleted the machine image. *)
Theorem delete_instance_keeps_references instance db :
  references_ok db -> references_ok (delete_instance instance db).1.
Proof.
  intros Hok. unfold delete_instance, instance_post_delete_callback.
  pose proof (references_ok_delete_instance_rows [inst_id instance] db Hok) as H1.
  destruct (machine_image instance) as [m|]; [|done].
  destruct (find_image m _); [|done].
  destruct (image_used_elsewhere instance m _); [done|].
  by apply references_ok_delete_machine_image.
Qed.

Lemma sample_db_references_ok : references_ok sample_db.
Proof.
  split; [|split; [|split]].
  - apply (bool_decide_unpack _). vm_compute. exact I.
  - apply Forall_nil_2.
  - simpl.
    repeat (apply Forall_cons_2;
            [intros m [= <-]; apply (bool_decide_unpack _); vm_compute; exact I|]).
    apply Forall_nil_2.
  - apply Forall_nil_2.
Defined.

Lemma delete_instance_keeps_references_witness :
  references_ok sample_db
  /\ references_ok (delete_instance (sample_instance 3 8) sample_db).1
  /\ find_image 8 (delete_instance (sample_instance 3 8) sample_db).1 = None.
Proof.
  split; [exact sample_db_references_ok|].
  split; [|vm_compute; reflexivity].
  exact (delete_instance_keeps_references (sample_instance 3 8) sample_db
           sample_db_references_ok).
Defined.

(** X9. The [post_delete] hook may run twice for instances deleted together:
    the second run changes nothing.  When the first run deleted the image,
    the second finds it gone and only logs that. *)
Theorem post_delete_callback_twice instance db :
  (instance_post_delete_callback instance
     (instance_post_delete_callback instance db).1).1
  = (instance_post_delete_callback instance db).1
  /\ (forall m, machine_image instance = Some m ->
        is_Some (find_image m db) ->
        image_used_elsewhere instance m db = false ->
        (instance_post_delete_callback instance
           (instance_post_delete_callback instance db).1).2
        = [Logged "Machine image associated with instance has already been deleted."]).
Proof.
  unfold instance_post_delete_callback.
  destruct (machine_image instance) as [m|] eqn:Hm; [|split; [done|]].
  - destruct (find_image m db) eqn:Hfind.
    + destruct (image_used_elsewhere instance m db) eqn:Hused; cbn [fst snd].
      * rewrite Hfind, Hused. split; [done|]. intros m' [= <-] _ ?. congruence.
      * assert (Hgone : find_image m (delete_machine_image m db) = None)
          by exact (find_image_deleted m _).
        rewrite Hgone. split; [done|]. by intros m' [= <-] _ _.
    + cbn [fst snd]. rewrite Hfind. split; [done|].
      intros m' [= <-] [? ?]. congruence.
  - intros m [=].
Qed.

Section ImageFacts.

Variable json_loads : string -> Exn + PyVal.
Variable content_is_cloud_access : MachineImage -> PyVal.

Lemma result_truthy_py_or a b :
  result_truthy (py_or a b)
  = match a with
    | inl _ => None
    | inr v => if truthy v then Some true else result_truthy b
    end.
Proof.
  destruct a as [e|v]; simpl; [done|].
  destruct (truthy v) eqn:Hv; simpl; [by rewrite Hv|done].
Qed.

Lemma inspection_field_absent self key default :
  inspection_json self = None \/ inspection_json self = Some "" ->
  inspection_field json_loads self key default = inr default.
Proof. unfold inspection_field. by intros [-> | ->]. Qed.

Lemma inspection_field_dict self key default text d :
  inspection_json self = Some text -> text <> "" ->
  json_loads text = inr (PyDict d) ->
  inspection_field json_loads self key default = inr (dict_get key d default).
Proof.
  intros Hjson Hne Hloads. unfold inspection_field.
  by rewrite Hjson, bool_decide_eq_false_2, Hloads.
Qed.

(** X10. An image tagged as RHEL is detected as RHEL without its inspection
    JSON being read: the answer is [True] whatever [json.loads] would do
    with the text, raise included. *)
Theorem rhel_detected_by_tag_alone self :
  rhel_detected_by_tag self = true ->
  rhel_detected json_loads content_is_cloud_access self = inr (PyBool true)
  /\ rhel json_loads content_is_cloud_access self = inr (PyBool true).
Proof. intros Htag. unfold rhel, rhel_detected. by rewrite Htag. Qed.

(** X11. Without inspection JSON, null or empty, the properties read from it
    are at their defaults whatever [json.loads] does: no version, no
    syspurpose, nothing found.  RHEL is then detected exactly when the image
    is tagged or the cloud-specific image says cloud access. *)
Theorem no_inspection_json_defaults self :
  inspection_json self = None \/ inspection_json self = Some "" ->
  rhel_version json_loads self = inr PyNone
  /\ syspurpose json_loads self = inr PyNone
  /\ rhel_enabled_repos_found json_loads self = inr (PyBool false)
  /\ rhel_product_certs_found json_loads self = inr (PyBool false)
  /\ rhel_release_files_found json_loads self = inr (PyBool false)
  /\ rhel_signed_packages_found json_loads self = inr (PyBool false)
  /\ result_truthy (rhel_detected json_loads content_is_cloud_access self)
     = Some (rhel_detected_by_tag self || truthy (content_is_cloud_access self)).
Proof.
  intros Habsent.
  unfold rhel_version, syspurpose, rhel_detected, rhel_enabled_repos_found,
    rhel_product_certs_found, rhel_release_files_found,
    rhel_signed_packages_found.
  rewrite !(inspection_field_absent self _ _ Habsent).
  repeat split. rewrite !result_truthy_py_or. simpl.
  destruct (rhel_detected_by_tag self); [done|].
  by destruct (truthy (content_is_cloud_access self)).
Qed.

(** X12. When the inspection JSON decodes to an object, RHEL is detected
    exactly when the image is tagged, or the cloud-specific image says
    cloud access, or one of the four findings in the object is true in
    Python's sense; a finding the object lacks counts as false. *)
Theorem rhel_detected_from_inspection self text d :
  inspection_json self = Some text -> text <> "" ->
  json_loads text = inr (PyDict d) ->
  result_truthy (rhel_detected json_loads content_is_cloud_access self)
  = Some (rhel_detected_by_tag self
          || truthy (content_is_cloud_access self)
          || truthy (dict_get "rhel_enabled_repos_found" d (PyBool false))
          || truthy (dict_get "rhel_product_certs_found" d (PyBool false))
          || truthy (dict_get "rhel_release_files_found" d (PyBool false))
          || truthy (dict_get "rhel_signed_packages_found" d (PyBool false))).
Proof.
  intros Hjson Hne Hloads.
  unfold rhel_detected, rhel_enabled_repos_found, rhel_product_certs_found,
    rhel_release_files_found, rhel_signed_packages_found.
  rewrite !(inspection_field_dict self _ _ text d Hjson Hne Hloads).
  rewrite !result_truthy_py_or. simpl.
  destruct (rhel_detected_by_tag self); [done|].
  destruct (truthy (content_is_cloud_access self)); [done|].
  repeat match goal with
         | |- context [truthy (dict_get ?k d ?v)] =>
             destruct (truthy (dict_get k d v)); simpl; try done
         end.
Qed.

(** X13. For an image that is neither tagged nor cloud access, a text that
    [json.loads] refuses makes [rhel_detected] raise that exception, and a
    text that decodes to something other than an object makes it raise
    [AttributeError]; [rhel_version] raises the same. *)
Theorem rhel_detected_raises self text :
  rhel_detected_by_tag self = false ->
  truthy (content_is_cloud_access self) = false ->
  inspection_json self = Some text -> text <> "" ->
  (forall e, json_loads text = inl e ->
     rhel_detected json_loads content_is_cloud_access self = inl e
     /\ rhel_version json_loads self = inl e)
  /\ (forall v, json_loads text = inr v -> (forall d, v <> PyDict d) ->
        rhel_detected json_loads content_is_cloud_access self
        = inl (OtherError "AttributeError")
        /\ rhel_version json_loads self = inl (OtherError "AttributeError")).
Proof.
  intros Htag Hcloud Hjson Hne.
  unfold rhel_detected, rhel_version, rhel_enabled_repos_found, inspection_field.
  rewrite Htag, Hjson, bool_decide_eq_false_2 by done. simpl. rewrite Hcloud.
  split.
  - intros e ->. done.
  - intros v -> Hnot. destruct v; try done. by destruct (Hnot d).
Qed.

End ImageFacts.

Lemma rhel_detected_by_tag_alone_witness :
  sample_json_loads "not json" = inl ValueError
  /\ rhel_detected sample_json_loads sample_no_cloud_access
       (sample_inspected true "not json") = inr (PyBool true).
Proof.
  split; [vm_compute; reflexivity|].
  apply (rhel_detected_by_tag_alone sample_json_loads sample_no_cloud_access
           (sample_inspected true "not json")).
  reflexivity.
Defined.

Lemma no_inspection_json_defaults_witness :
  inspection_json (sample_image 7) = None
  /\ rhel_version sample_json_loads (sample_image 7) = inr PyNone
  /\ result_truthy
       (rhel_detected sample_json_loads sample_no_cloud_access (sample_image 7))
     = Some false.
Proof.
  destruct (no_inspection_json_defaults sample_json_loads sample_no_cloud_access
              (sample_image 7)) as (Hv & _ & _ & _ & _ & _ & Hd).
  - by left.
  - split; [reflexivity|]. split; [exact Hv|exact Hd].
Defined.

Lemma rhel_detected_from_inspection_witness :
  sample_json_loads sample_inspection_text
  = inr (PyDict [("rhel_release_files_found", PyBool true)])
  /\ result_truthy
       (rhel_detected sample_json_loads sample_no_cloud_access
          (sample_inspected false sample_inspection_text))
     = Some true.
Proof.
  assert (H : sample_json_loads sample_inspection_text
              = inr (PyDict [("rhel_release_files_found", PyBool true)]))
    by (vm_compute; reflexivity).
  split; [exact H|].
  assert (Hne : sample_inspection_text <> "") by (vm_compute; discriminate).
  rewrite (rhel_detected_from_inspection sample_json_loads sample_no_cloud_access
             (sample_inspected false sample_inspection_text)
             sample_inspection_text _ eq_refl Hne H).
  reflexivity.
Defined.

Lemma rhel_detected_raises_witness :
  rhel_detected sample_json_loads sample_no_cloud_access
    (sample_inspected false "not json") = inl ValueError
  /\ rhel_detected sample_json_loads sample_no_cloud_access
       (sample_inspected false "[]") = inl (OtherError "AttributeError").
Proof.
  split.
  - destruct (rhel_detected_raises sample_json_loads sample_no_cloud_access
                (sample_inspected false "not json") "not json")
      as [Hraise _]; [reflexivity|reflexivity|reflexivity|discriminate|].
    apply (Hraise ValueError). vm_compute. reflexivity.
  - destruct (rhel_detected_raises sample_json_loads sample_no_cloud_access
                (sample_inspected false "[]") "[]")
      as [_ Hattr]; [reflexivity|reflexivity|reflexivity|discriminate|].
    apply (Hattr (PyList [])); [vm_compute; reflexivity|discriminate].
Defined.

End ModelsOperations.

(** *** More of the catalog refresh *)

Section MaintenanceOperations.

Import Maintenance.

Lemma substring_prefix s u :
  String.substring 0 (String.length s) (s +:+ u) = s.
Proof.
  induction s as [|c s IH]; simpl.
  - by destruct u.
  - by rewrite IH.
Qed.

Lemma length_append s u :
  String.length (s +:+ u) = (String.length s + String.length u)%nat.
Proof. induction s as [|c s IH]; simpl; [done|by rewrite IH]. Qed.

Lemma substring_zero s : String.substring 0 0 s = EmptyString.
Proof. by destruct s. Qed.

(** X14. What [float] is given for a memory attribute: the text loses its last
    four characters, the unit, and every comma.  A text of four characters
    or fewer, such as [NA], leaves the empty string. *)
Theorem memory_text_normalised x u :
  String.length u = 4%nat ->
  drop_last4 (x +:+ u) = x
  /\ String.list_ascii_of_string (remove_commas (drop_last4 (x +:+ u)))
     = without_commas x
  /\ (forall s, (String.length s <= 4)%nat -> drop_last4 s = EmptyString).
Proof.
  intros Hu.
  assert (Hdrop : drop_last4 (x +:+ u) = x).
  { unfold drop_last4. rewrite length_append, Hu.
    replace (String.length x + 4 - 4)%nat with (String.length x) by lia.
    apply substring_prefix. }
  split; [done|]. split.
  - rewrite Hdrop. unfold without_commas.
    induction x as [|c x IH]; simpl; [done|].
    case_bool_decide as Hc.
    + rewrite filter_cons_False by (intros ?; done). apply IH.
      unfold drop_last4. rewrite length_append, Hu.
      replace (String.length x + 4 - 4)%nat with (String.length x) by lia.
      apply substring_prefix.
    + rewrite filter_cons_True by done. simpl. f_equal. apply IH.
      unfold drop_last4. rewrite length_append, Hu.
      replace (String.length x + 4 - 4)%nat with (String.length x) by lia.
      apply substring_prefix.
  - intros s Hs. unfold drop_last4.
    replace (String.length s - 4)%nat with 0%nat by lia.
    apply substring_zero.
Qed.

Lemma memory_text_normalised_witness :
  String.length " GiB" = 4%nat
  /\ drop_last4 "1,952.00 GiB" = "1,952.00"
  /\ remove_commas (drop_last4 "1,952.00 GiB") = "1952.00"
  /\ drop_last4 "NA" = EmptyString.
Proof.
  destruct (memory_text_normalised "1,952.00" " GiB" eq_refl) as (Hd & _ & Hs).
  split; [reflexivity|]. split; [exact Hd|]. split; [reflexivity|].
  apply Hs. simpl. lia.
Defined.

Lemma dict_set_keys {V : Type} k (v : V) d :
  (dict_set k v d).*1 = if bool_decide (k ∈ d.*1) then d.*1 else d.*1 ++ [k].
Proof.
  induction d as [|[k' v'] d IH]; [done|]. cbn [dict_set].
  destruct (decide (k' = k)) as [->|Hne].
  - rewrite (bool_decide_eq_true_2 (k = k)) by done. rewrite !fmap_cons.
    cbn [fst]. rewrite bool_decide_eq_true_2; [done|]. apply elem_of_cons. by left.
  - rewrite (bool_decide_eq_false_2 (k' = k)) by done. rewrite !fmap_cons, IH.
    cbn [fst]. destruct (decide (k ∈ d.*1)) as [Hin|Hout].
    + rewrite !bool_decide_eq_true_2; [done| |done]. apply elem_of_cons. by right.
    + rewrite !bool_decide_eq_false_2; [done| |done].
      intros [?|?]%elem_of_cons; [congruence|done].
Qed.

Lemma dict_set_NoDup {V : Type} k (v : V) d :
  NoDup d.*1 -> NoDup (dict_set k v d).*1.
Proof.
  intros Hnd. rewrite dict_set_keys. case_bool_decide as Hk; [done|].
  apply NoDup_app. split; [done|]. split; [|apply NoDup_singleton].
  intros x Hx ->%list_elem_of_singleton. done.
Qed.

Lemma dict_lookup_set {V : Type} k (v : V) d :
  dict_lookup k (dict_set k v d) = Some v
  /\ forall k', k' <> k -> dict_lookup k' (dict_set k v d) = dict_lookup k' d.
Proof.
  induction d as [|[k0 v0] d [IH1 IH2]]; simpl.
  - rewrite bool_decide_eq_true_2 by done. split; [done|].
    intros k' Hk'. by rewrite bool_decide_eq_false_2.
  - case_bool_decide as Hk; simpl.
    + subst k0. rewrite bool_decide_eq_true_2 by done. split; [done|].
      intros k' Hk'. by rewrite !bool_decide_eq_false_2.
    + rewrite bool_decide_eq_false_2 by done. split; [done|].
      intros k' Hk'. case_bool_decide; [done|by apply IH2].
Qed.

Section FetchFacts.

Variable py_float : string -> option float.
Variable py_int : string -> option Z.

Lemma fetch_entry_instances st entry :
  instances (fetch_entry py_float py_int st entry).1 = instances st
  \/ exists attrs name def,
       entry = Attributes attrs
       /\ parse_entry py_float py_int attrs = inr (name, def)
       /\ instances (fetch_entry py_float py_int st entry).1
          = dict_set name def (instances st).
Proof.
  destruct entry as [e|attrs]; simpl.
  - left. case_bool_decide; [|done]. unfold log_fetch_error.
    destruct (instance_attr st) as [a|]; [|done]. by destruct (a !! "instanceType").
  - destruct (parse_entry py_float py_int attrs) as [e|[name def]] eqn:Hp.
    + left. case_bool_decide; [|done]. unfold log_fetch_error. simpl.
      by destruct (attrs !! "instanceType").
    + right. by exists attrs, name, def.
Qed.

(** X15. Whatever the pages hold, and whether or not the fetch raises, no
    instance type name appears twice among the definitions fetched. *)
Theorem fetched_names_are_unique pages :
  NoDup (instances (_fetch_ec2_instance_type_definitions py_float py_int pages).1).*1.
Proof.
  unfold _fetch_ec2_instance_type_definitions. rewrite for_each_concat.
  apply (for_each_invariant (fetch_entry py_float py_int)
           (fun st => NoDup (instances st).*1)).
  - intros st x _ Hst.
    destruct (fetch_entry_instances st x) as [->|(? & ? & ? & _ & _ & ->)];
      [done|by apply dict_set_NoDup].
  - simpl. apply NoDup_nil_2.
Qed.

(** X16. An entry that parses is stored under its instance type, replacing
    what an earlier entry of the same type had stored; the definitions of
    the other instance types are as they were, and nothing is logged. *)
Theorem parsed_entry_overwrites st attrs name def :
  parse_entry py_float py_int attrs = inr (name, def) ->
  (fetch_entry py_float py_int st (Attributes attrs)).2 = None
  /\ dict_lookup name
       (instances (fetch_entry py_float py_int st (Attributes attrs)).1)
     = Some def
  /\ (forall other, other <> name ->
        dict_lookup other
          (instances (fetch_entry py_float py_int st (Attributes attrs)).1)
        = dict_lookup other (instances st))
  /\ fetch_log (fetch_entry py_float py_int st (Attributes attrs)).1
     = fetch_log st.
Proof.
  intros Hp. simpl. rewrite Hp. simpl.
  destruct (dict_lookup_set name def (instances st)) as [H1 H2].
  by repeat split.
Qed.

(** X17. An entry without a vcpu attribute is stored with vcpu 0, provided its
    memory parses and it names its instance type. *)
Theorem missing_vcpu_is_zero st attrs name m x :
  attrs !! "vcpu" = None ->
  attrs !! "memory" = Some m ->
  py_float (remove_commas (drop_last4 m)) = Some x ->
  attrs !! "instanceType" = Some name ->
  (fetch_entry py_float py_int st (Attributes attrs)).2 = None
  /\ dict_lookup name
       (instances (fetch_entry py_float py_int st (Attributes attrs)).1)
     = Some {| memory := x; vcpu := 0 |}.
Proof.
  intros Hv Hm Hx Hn.
  assert (Hp : parse_entry py_float py_int attrs
               = inr (name, {| memory := x; vcpu := 0 |})).
  { unfold parse_entry, parse_memory, parse_vcpu. by rewrite Hm, Hx, Hv, Hn. }
  simpl. rewrite Hp. simpl.
  by destruct (dict_lookup_set name {| memory := x; vcpu := 0 |} (instances st)).
Qed.

(** X18. The loop survives a decoded entry exactly when the entry carries
    [instanceType] and [memory]: without [memory] it raises [TypeError],
    and with [memory] but without [instanceType] it raises [KeyError],
    whether or not the numbers parse. *)
Theorem fetch_entry_survives_iff st attrs :
  ((fetch_entry py_float py_int st (Attributes attrs)).2 = None
   <-> well_formed (Attributes attrs))
  /\ (attrs !! "memory" = None ->
      (fetch_entry py_float py_int st (Attributes attrs)).2 = Some TypeError)
  /\ (is_Some (attrs !! "memory") -> attrs !! "instanceType" = None ->
      (fetch_entry py_float py_int st (Attributes attrs)).2 = Some KeyError).
Proof.
  assert (Htype : attrs !! "memory" = None ->
    (fetch_entry py_float py_int st (Attributes attrs)).2 = Some TypeError).
  { intros Hm. unfold fetch_entry, parse_entry, parse_memory. by rewrite Hm. }
  assert (Hkey : is_Some (attrs !! "memory") -> attrs !! "instanceType" = None ->
    (fetch_entry py_float py_int st (Attributes attrs)).2 = Some KeyError).
  { intros [m Hm] Hn.
    unfold fetch_entry, parse_entry, parse_memory, parse_vcpu, log_fetch_error.
    rewrite Hm. destruct (py_float _); simpl; rewrite ?Hn; [|done].
    destruct (attrs !! "vcpu") as [v|]; simpl; rewrite ?Hn; [|done].
    by destruct (py_int v); simpl; rewrite ?Hn. }
  split; [|by split]. split.
  - intros Hnone. unfold well_formed.
    destruct (attrs !! "memory") as [m|] eqn:Hm;
      [|rewrite Htype in Hnone; done].
    destruct (attrs !! "instanceType") as [name|] eqn:Hn; [by split; eexists|].
    rewrite Hkey in Hnone; [done|by eexists|done].
  - intros Hwf. by destruct (fetch_entry_well_formed py_float py_int st _ Hwf).
Qed.

(** X19. An entry [json.loads] cannot decode is handled with whatever
    [instance_attr] holds from before: as the first entry of the price
    list it makes the fetch raise [UnboundLocalError]; after an entry that
    named its instance type it is logged under that earlier entry's type,
    memory and vcpu, and the loop goes on with the definitions untouched.
    An exception other than [ValueError] leaves the loop as it is. *)
Theorem undecodable_entry_uses_stale_attributes :
  (forall rest pages,
     (_fetch_ec2_instance_type_definitions py_float py_int
        ((Raises ValueError :: rest) :: pages)).2 = Some UnboundLocalError)
  /\ (forall st attrs name,
        instance_attr st = Some attrs ->
        attrs !! "instanceType" = Some name ->
        fetch_entry py_float py_int st (Raises ValueError)
        = ({| instances := instances st;
              instance_attr := Some attrs;
              fetch_log :=
                fetch_log st ++
                [LogFetchError name (attrs !! "memory") (attrs !! "vcpu")] |},
           None))
  /\ (forall st e, e <> ValueError ->
        fetch_entry py_float py_int st (Raises e) = (st, Some e)).
Proof.
  split; [|split].
  - intros rest pages. reflexivity.
  - intros st attrs name Hattr Hname. simpl. unfold log_fetch_error.
    by rewrite Hattr, Hname.
  - intros st e He. simpl. by rewrite bool_decide_eq_false_2.
Qed.

End FetchFacts.

Section SaveFacts.

Abbreviation save_all := (_save_ec2_instance_type_definitions no_db_fault).

Lemma save_no_fault : forall definitions store log,
  exists log',
    for_each (save_definition no_db_fault) (store, log) definitions
    = (store ∪ list_to_map definitions, log', None).
Proof.
  induction definitions as [|[name d] l IH]; intros store log.
  - exists log. simpl. by rewrite (right_id_L ∅ (∪)).
  - cbn [for_each]. unfold save_definition at 1, get_or_create, no_db_fault.
    destruct (store !! name) as [obj|] eqn:Hs.
    + destruct (IH store (log ++ [LogExists name])) as [log' Hl].
      unfold no_db_fault in Hl. rewrite Hl. exists log'. f_equal. f_equal. simpl.
      apply map_eq. intros k. rewrite !lookup_union.
      destruct (decide (name = k)) as [<-|Hne].
      * rewrite lookup_insert_eq, Hs. simpl.
        by destruct (list_to_map l !! name).
      * by rewrite lookup_insert_ne.
    + destruct (IH (<[name := d]> store) (log ++ [LogSaved name])) as [log' Hl].
      unfold no_db_fault in Hl. rewrite Hl. exists log'. f_equal. f_equal. simpl.
      rewrite <- insert_union_l. by rewrite insert_union_r.
Qed.

(** X20. With a database that does not fail, saving never raises, and leaves
    the table holding what it held plus the definitions given for the
    names it lacked; of two definitions given for one name the first
    counts. *)
Theorem save_adds_missing_definitions definitions store :
  (_save_ec2_instance_type_definitions no_db_fault definitions store).1.1
  = store ∪ list_to_map definitions
  /\ (_save_ec2_instance_type_definitions no_db_fault definitions store).2
     = None.
Proof.
  unfold _save_ec2_instance_type_definitions.
  by destruct (save_no_fault definitions store []) as [log' ->].
Qed.

Lemma save_present_names : forall definitions store log,
  (forall item, item ∈ definitions -> is_Some (store !! item.1)) ->
  for_each (save_definition no_db_fault) (store, log) definitions
  = (store, log ++ (LogExists <$> definitions.*1), None).
Proof.
  induction definitions as [|[name d] l IH]; intros store log Hall.
  - simpl. by rewrite app_nil_r.
  - cbn [for_each]. unfold save_definition at 1, get_or_create, no_db_fault.
    destruct (Hall (name, d)) as [obj Hobj]; [apply elem_of_cons; by left|].
    simpl in Hobj. rewrite Hobj.
    pose proof (IH store (log ++ [LogExists name])) as Hl.
    unfold no_db_fault in Hl. rewrite Hl.
    + by rewrite <- app_assoc.
    + intros item Hitem. apply Hall. apply elem_of_cons. by right.
Qed.

(** X21. Saving the same definitions again changes nothing: the second run
    finds every name, creates no row and logs each name as existing. *)
Theorem save_twice definitions store :
  _save_ec2_instance_type_definitions no_db_fault definitions
    (_save_ec2_instance_type_definitions no_db_fault definitions store).1.1
  = ((_save_ec2_instance_type_definitions no_db_fault definitions store).1.1,
     LogExists <$> definitions.*1,
     None).
Proof.
  unfold _save_ec2_instance_type_definitions.
  destruct (save_no_fault definitions store []) as [log' ->]. simpl.
  rewrite save_present_names; [done|].
  intros [name d] Hin. simpl. apply lookup_union_is_Some. right.
  apply elem_of_dom. rewrite dom_list_to_map_L. apply elem_of_list_to_set.
  by apply (list_elem_of_fmap_2 fst) in Hin.
Qed.

End SaveFacts.

Section RepopulateFacts.

Variable py_float : string -> option float.
Variable py_int : string -> option Z.

(** X22. However the task fails, in the fetch or in the save, the table it
    leaves is the table it found. *)
Theorem repopulate_raises_unchanged db_fault pages store e :
  (repopulate_ec2_instance_mapping py_float py_int db_fault pages store).2
  = Some e ->
  (repopulate_ec2_instance_mapping py_float py_int db_fault pages store).1.1
  = store.
Proof.
  unfold repopulate_ec2_instance_mapping, atomic, save_or_log.
  destruct (_fetch_ec2_instance_type_definitions py_float py_int pages)
    as [st [e0|]]; [done|].
  by destruct (_save_ec2_instance_type_definitions db_fault (instances st) store)
    as [[store' log] [e1|]].
Qed.

Lemma repopulate_no_fault pages store :
  ((_fetch_ec2_instance_type_definitions py_float py_int pages).2 = None
   /\ (repopulate_ec2_instance_mapping py_float py_int no_db_fault
         pages store).2 = None
   /\ (repopulate_ec2_instance_mapping py_float py_int no_db_fault
         pages store).1.1
      = store ∪ list_to_map
                  (instances
                     (_fetch_ec2_instance_type_definitions py_float py_int
                        pages).1)
   /\ last (repopulate_ec2_instance_mapping py_float py_int no_db_fault
              pages store).1.2
      = Some (LogInfo "Finished saving AWS EC2 instance type definitions."))
  \/ (exists e,
        (_fetch_ec2_instance_type_definitions py_float py_int pages).2 = Some e
        /\ (repopulate_ec2_instance_mapping py_float py_int no_db_fault
              pages store).2 = Some e
        /\ (repopulate_ec2_instance_mapping py_float py_int no_db_fault
              pages store).1.1 = store).
Proof.
  unfold repopulate_ec2_instance_mapping, atomic, save_or_log.
  destruct (_fetch_ec2_instance_type_definitions py_float py_int pages)
    as [st [e0|]]; [right; by exists e0|left].
  unfold _save_ec2_instance_type_definitions.
  destruct (save_no_fault (instances st) store []) as [log' ->]. simpl.
  repeat split. by rewrite app_assoc, last_snoc.
Qed.

(** X23. With a database that does not fail and a price list whose entries all
    decode and carry [instanceType] and [memory], the task returns
    normally, the table holds what it held plus the definitions parsed from
    the price list for the names it lacked, and the last thing logged is
    that the save finished. *)
Theorem repopulate_adds_fetched_definitions pages store :
  Forall well_formed (concat pages) ->
  (repopulate_ec2_instance_mapping py_float py_int no_db_fault pages store).2
  = None
  /\ (repopulate_ec2_instance_mapping py_float py_int no_db_fault
        pages store).1.1
     = store ∪ list_to_map (definitions_of py_float py_int (concat pages))
  /\ last (repopulate_ec2_instance_mapping py_float py_int no_db_fault
             pages store).1.2
     = Some (LogInfo "Finished saving AWS EC2 instance type definitions.").
Proof.
  intros Hwf.
  assert (Hfetch :
    (_fetch_ec2_instance_type_definitions py_float py_int pages).2 = None
    /\ instances (_fetch_ec2_instance_type_definitions py_float py_int pages).1
       = definitions_of py_float py_int (concat pages)).
  { unfold _fetch_ec2_instance_type_definitions. rewrite for_each_concat.
    destruct (fetch_entries_well_formed py_float py_int (concat pages)
                {| instances := []; instance_attr := None;
                   fetch_log :=
                     [LogInfo "Getting AWS EC2 instance type information."] |}
                Hwf) as (Hnone & Hinst & _).
    by split. }
  destruct Hfetch as [Hnone Hinst].
  destruct (repopulate_no_fault pages store)
    as [(_ & Hr & Hs & Hl)|(e & He & _)]; [|congruence].
  by rewrite Hr, Hs, Hl, Hinst.
Qed.

(** X24. With a database that does not fail, running the task a second time on
    the same price list leaves the table the first run left, whatever the
    price list holds. *)
Theorem repopulate_twice pages store :
  (repopulate_ec2_instance_mapping py_float py_int no_db_fault pages
     (repopulate_ec2_instance_mapping py_float py_int no_db_fault
        pages store).1.1).1.1
  = (repopulate_ec2_instance_mapping py_float py_int no_db_fault
       pages store).1.1.
Proof.
  destruct (repopulate_no_fault pages store)
    as [(Hf & _ & Hs & _)|(e & He & _ & Hs)]; rewrite Hs.
  - destruct (repopulate_no_fault pages
                (store ∪ list_to_map
                   (instances
                      (_fetch_ec2_instance_type_definitions py_float py_int
                         pages).1)))
      as [(_ & _ & Hs' & _)|(e & He & _)]; [|congruence].
    rewrite Hs'. rewrite <- (assoc_L (∪)). by rewrite (idemp_L (∪)).
  - destruct (repopulate_no_fault pages store)
      as [(Hf & _)|(_ & _ & _ & Hs')]; [congruence|done].
Qed.

End RepopulateFacts.

Lemma parsed_entry_overwrites_witness :
  let st := (_fetch_ec2_instance_type_definitions float_of_decimal int_of_digits
               sample_pages).1 in
  let attrs : gmap string string :=
    {[ "instanceType" := "t2.micro"; "memory" := "2 GiB"; "vcpu" := "4" ]} in
  dict_lookup "t2.micro" (instances st) = Some {| memory := 1%float; vcpu := 1 |}
  /\ dict_lookup "t2.micro"
       (instances
          (fetch_entry float_of_decimal int_of_digits st (Attributes attrs)).1)
     = Some {| memory := 2%float; vcpu := 4 |}.
Proof.
  intros st attrs. split; [vm_compute; reflexivity|].
  apply (parsed_entry_overwrites float_of_decimal int_of_digits st attrs
           "t2.micro" {| memory := 2%float; vcpu := 4 |}).
  vm_compute. reflexivity.
Defined.

Lemma missing_vcpu_is_zero_witness :
  let attrs : gmap string string :=
    {[ "instanceType" := "t2.nano"; "memory" := "0.5 GiB" ]} in
  dict_lookup "t2.nano"
    (instances
       (fetch_entry float_of_decimal int_of_digits
          {| instances := []; instance_attr := None; fetch_log := [] |}
          (Attributes attrs)).1)
  = Some {| memory := 0.5%float; vcpu := 0 |}.
Proof.
  intros attrs.
  apply (missing_vcpu_is_zero float_of_decimal int_of_digits
           {| instances := []; instance_attr := None; fetch_log := [] |}
           attrs "t2.nano" "0.5 GiB" 0.5%float); vm_compute; reflexivity.
Defined.

Lemma repopulate_raises_unchanged_witness :
  (repopulate_ec2_instance_mapping float_of_decimal int_of_digits no_db_fault
     [[entry_without_memory]] sample_store).2 = Some TypeError
  /\ (repopulate_ec2_instance_mapping float_of_decimal int_of_digits no_db_fault
        [[entry_without_memory]] sample_store).1.1 = sample_store.
Proof.
  assert (H : (repopulate_ec2_instance_mapping float_of_decimal int_of_digits
                 no_db_fault [[entry_without_memory]] sample_store).2
              = Some TypeError) by (vm_compute; reflexivity).
  split; [exact H|].
  exact (repopulate_raises_unchanged float_of_decimal int_of_digits no_db_fault
           [[entry_without_memory]] sample_store TypeError H).
Defined.

Lemma repopulate_adds_fetched_definitions_witness :
  Forall well_formed (concat sample_pages)
  /\ (repopulate_ec2_instance_mapping float_of_decimal int_of_digits no_db_fault
        sample_pages sample_store).1.1 !! "r5.large"
     = Some {| memory := 1952.5%float; vcpu := 2 |}
  /\ (repopulate_ec2_instance_mapping float_of_decimal int_of_digits no_db_fault
        sample_pages sample_store).1.1 !! "t2.micro"
     = Some {| memory := 0.5%float; vcpu := 8 |}.
Proof.
  assert (Hwf : Forall well_formed (concat sample_pages)).
  { simpl.
    repeat (apply Forall_cons_2;
            [split; eexists; vm_compute; reflexivity|]).
    apply Forall_nil_2. }
  destruct (repopulate_adds_fetched_definitions float_of_decimal int_of_digits
              sample_pages sample_store Hwf) as (_ & Hs & _).
  split; [exact Hwf|]. rewrite Hs. split; vm_compute; reflexivity.
Defined.

End MaintenanceOperations.

(** *** The migration *)

Section MigrationFacts.

Import Migration.

(** X25. The migration deletes the periodic tasks that run one of the three
    deprecated task names and no other: a row is left exactly when it was
    there and its task is not deprecated, the rows left keep their order,
    and running the migration again changes nothing. *)
Theorem deprecated_tasks_are_deleted table :
  (forall row, row ∈ delete_deprecated_tasks table <->
               row ∈ table /\ task row ∉ deprecated_tasks)
  /\ delete_deprecated_tasks table `sublist_of` table
  /\ delete_deprecated_tasks (delete_deprecated_tasks table)
     = delete_deprecated_tasks table.
Proof.
  unfold delete_deprecated_tasks. split; [|split].
  - intros row. rewrite list_elem_of_filter. tauto.
  - apply sublist_filter.
  - apply filter_all. intros row Hrow. by apply list_elem_of_filter in Hrow as [? _].
Qed.

End MigrationFacts.
